(** * PlotGallery: a shallow embedding of the gallery scripts

    The scripts are flat Python programs.  The parts whose logic belongs to
    the repository (flag parsing, font-path selection, the parameter sweep,
    the coil-frame helpers of [compute_field.py], the twist angle of the
    polarization grating) are embedded as Rocq functions; the calls into the
    external libraries are abstract oracles. *)

From Stdlib Require Import Ascii String List Bool Arith Lia.
From Stdlib Require Import QArith Qround.
From Stdlib Require Import Reals Lra Psatz.
Import ListNotations.
Open Scope string_scope.

(* ------------------------------------------------------------------ *)
(** ** [Beys_Gallery/pyfin_alt_risk.py], lines 22-32: font-path selection *)

Module PyfinFont.

(** Result of the [if/elif/else] on [sys.platform]: either [FontPath] is
    assigned, or the message is printed and [sys.exit()] is called. *)
Inductive FontSel :=
| SetFontPath (path : string)
| PrintAndExit (msg : string).

Definition win_font := "C:\Windows\Fonts\meiryo.ttc".
Definition darwin_font := "/System/Library/Fonts/ヒラギノ角ゴシック W4.ttc".
Definition linux_font := "/usr/share/fonts/truetype/takao-gothic/TakaoPGothic.ttf".
Definition unsupported_msg := "このPythonコードが対応していないOSを使用しています．".

(** [str.startswith] *)
Definition startswith (s pre : string) : bool := String.prefix pre s.

Definition select_font (platform : string) : FontSel :=
  if startswith platform "win" then SetFontPath win_font
  else if startswith platform "darwin" then SetFontPath darwin_font
  else if startswith platform "linux" then SetFontPath linux_font
  else PrintAndExit unsupported_msg.

End PyfinFont.

(* ------------------------------------------------------------------ *)
(** ** [ccx_gallery/multihole.py], lines 10-17: command-line flags *)

Module Multihole.

(** [x in sys.argv] *)
Definition list_in (x : string) (argv : list string) : bool :=
  existsb (String.eqb x) argv.

Definition show_gui (argv : list string) : bool :=
  let show_gui := true in
  if list_in "-nogui" argv then false else show_gui.

Definition eshape (argv : list string) : string :=
  let eshape := "quad" in
  if list_in "-tri" argv then "tri" else eshape.

End Multihole.

(* ------------------------------------------------------------------ *)
(** ** [meep_gallery/polarization_grating.py], lines 42-53: twist angle *)

Module Grating.
Open Scope R_scope.

Definition dpml := 1.
Definition dsub := 1.
Definition dpad := 1.

(** Cell width [sx] of [pol_grating d ph gp nmode]. *)
Definition sx (d : R) := dpml + dsub + d + d + dpad + dpml.

(** Points are [mp.Vector3]; only [x] and [y] are read by [phi]. *)
Record Vec3 := { vx : R; vy : R; vz : R }.

Definition xx_of (d : R) (p : Vec3) := vx p - (-0.5 * sx d + dpml + dsub).

Definition phi_first (gp ph d xx y : R) := PI * y / gp + ph * xx / d.
Definition phi_second (gp ph d xx y : R) := PI * y / gp - ph * xx / d + 2 * ph.

(** The nested [phi] of [pol_grating d ph gp nmode]. *)
Definition phi (d ph gp : R) (p : Vec3) : R :=
  let xx := xx_of d p in
  if Rle_dec 0 xx then
    if Rle_dec xx d then phi_first gp ph d xx (vy p)
    else phi_second gp ph d xx (vy p)
  else phi_second gp ph d xx (vy p).

End Grating.

(* ------------------------------------------------------------------ *)
(** ** [Beys_Gallery/pyfin_alt_risk.py], lines 48-69: the mean-absolute-
    deviation frontier sweep *)

Module MadSweep.
Open Scope Q_scope.

(** [np.linspace(start, stop, num)] (endpoint included): the points are
    [i * step + start] and, when [num > 1], the last one is set to [stop].
    Values are exact rationals; floating-point rounding is not modelled. *)
Definition linspace (start stop : Q) (num : nat) : list Q :=
  let div := (Z.of_nat num - 1)%Z in
  let step := (stop - start) / inject_Z div in
  map (fun i => if (Nat.eqb i (num - 1) && Nat.ltb 1 num)%bool then stop
                else inject_Z (Z.of_nat i) * step + start)
      (seq 0 num).

(** [np.zeros(shape)] *)
Definition zeros (n : nat) : list Q := repeat 0 n.

(** Python's [a[i] = v] on a 1-d array: [None] is the [IndexError]. *)
Fixpoint list_set (l : list Q) (i : nat) (v : Q) : option (list Q) :=
  match l, i with
  | [], _ => None
  | _ :: t, O => Some (v :: t)
  | h :: t, S j => option_map (cons h) (list_set t j v)
  end.

(** The script state the sweep touches: the value of the cvxpy parameter
    [Target_Return], the array [V_Risk], and the targets at which
    [Opt_Portfolio.solve] was called, in order. *)
Record St := mkSt { target : option Q; v_risk : list Q; solver_log : list Q }.

Inductive Res :=
| Ok (st : St)
| Raise (e : string) (st : St).

Section Sweep.
(** The ECOS solve followed by [Risk_AD.value]: the optimal risk for the
    current value of [Target_Return] (the returns data is fixed). *)
Variable risk_of : Q -> Q.

(** [Target_Return.value = v] for [cvx.Parameter(nonneg=True)]: cvxpy rejects
    a negative value. *)
Definition set_target (v : Q) (st : St) : Res :=
  if Qle_bool 0 v then Ok (mkSt (Some v) (v_risk st) (solver_log st))
  else Raise "Parameter value must be nonnegative." st.

(** [Opt_Portfolio.solve(solver=cvx.ECOS)] then [Risk_AD.value]. *)
Definition solve (st : St) : option Q * St :=
  match target st with
  | Some t => (Some (risk_of t), mkSt (target st) (v_risk st) (solver_log st ++ [t]))
  | None => (None, st)
  end.

(** [for idx, Target_Return.value in enumerate(V_Target): ...] *)
Fixpoint sweep_loop (idx : nat) (vs : list Q) (st : St) : Res :=
  match vs with
  | [] => Ok st
  | v :: vs' =>
      match set_target v st with
      | Raise e st1 => Raise e st1
      | Ok st1 =>
          match solve st1 with
          | (Some r, st2) =>
              match list_set (v_risk st2) idx r with
              | Some vr => sweep_loop (S idx) vs' (mkSt (target st2) vr (solver_log st2))
              | None => Raise "IndexError" st2
              end
          | (None, st2) => Raise "Parameter value is None" st2
          end
      end
  end.

(** Lines 65-69, starting from the state left by the problem set-up:
    [Target_Return] has no value yet and nothing has been solved. *)
Definition V_Target (mu_min mu_max : Q) : list Q := linspace mu_min mu_max 250.

Definition mad_frontier (mu_min mu_max : Q) : Res :=
  let vt := V_Target mu_min mu_max in
  sweep_loop 0 vt (mkSt None (zeros (length vt)) []).

End Sweep.
End MadSweep.

(* ------------------------------------------------------------------ *)
(** ** [maya_gallery/compute_field.py]: the field of a current loop *)

Module Coil.
Open Scope R_scope.

(** A 3-vector [np.r_[v0, v1, v2]], over the reals. *)
Record V3 := mkV3 { c0 : R; c1 : R; c2 : R }.

(** [np.square(v).sum(axis=-1)] *)
Definition sumsq (v : V3) : R := c0 v * c0 v + c1 v * c1 v + c2 v * c2 v.

(** [v / s] for a scalar [s] *)
Definition vdiv (v : V3) (s : R) : V3 := mkV3 (c0 v / s) (c1 v / s) (c2 v / s).

Definition vscale (s : R) (v : V3) : V3 := mkV3 (s * c0 v) (s * c1 v) (s * c2 v).

Definition dot (a b : V3) : R := c0 a * c0 b + c1 a * c1 b + c2 a * c2 b.

(** [np.cross(a, b)] *)
Definition cross (a b : V3) : V3 :=
  mkV3 (c1 a * c2 b - c2 a * c1 b)
       (c2 a * c0 b - c0 a * c2 b)
       (c0 a * c1 b - c1 a * c0 b).

(** [base_vectors(n)], lines 16-31. *)
Definition base_vectors (n : V3) : V3 * V3 * V3 :=
  let n := vdiv n (sqrt (sumsq n)) in
  let l := if Req_EM_T (Rabs (c0 n)) 1 then mkV3 (c2 n) 0 (- c0 n)
           else mkV3 0 (c2 n) (- c1 n) in
  let l := vdiv l (sqrt (sumsq l)) in
  let m := cross n l in
  (n, l, m).

(** Numeric values of the elementwise numpy computation: [Some r] is a
    finite float, [None] is a NaN or an infinity. *)
Definition num := option R.

Definition nmul (a b : num) : num :=
  match a, b with Some x, Some y => Some (x * y) | _, _ => None end.
Definition nadd (a b : num) : num :=
  match a, b with Some x, Some y => Some (x + y) | _, _ => None end.
Definition nneg (a : num) : num := option_map Ropp a.
(** Division: a zero divisor gives [inf] or [nan]. *)
Definition ndiv (a : num) (b : R) : num :=
  match a with
  | Some x => if Req_EM_T b 0 then None else Some (x / b)
  | None => None
  end.

Section BField.
(** [special.ellipe] and [special.ellipk]. *)
Variables ellipe ellipk : R -> num.

(** Lines 72-94 of [B_field] at one point [(x, y, z)] of [r] in the coil
    frame, for the loop radius [R]: the components [(Brho, Bz)] and the
    angle [theta], after the masked assignments. *)
Definition theta (x y : R) : num :=
  let theta := option_map atan (ndiv (Some x) y) in
  if Req_EM_T y 0 then Some (PI / 2) else theta.

Definition rho (x y : R) : R := sqrt (x ^ 2 + y ^ 2).

Definition dist (R0 x y z : R) : R := (R0 - rho x y) ^ 2 + z ^ 2.

Definition ell_arg (R0 x y z : R) : num :=
  let rho := rho x y in
  ndiv (Some (4 * R0 * rho)) ((R0 + rho) ^ 2 + z ^ 2).

Definition Bz_raw (R0 x y z : R) : num :=
  let rho := rho x y in
  let E := match ell_arg R0 x y z with Some m => ellipe m | None => None end in
  let K := match ell_arg R0 x y z with Some m => ellipk m | None => None end in
  let dist := dist R0 x y z in
  nmul (ndiv (Some 1) (sqrt ((R0 + rho) ^ 2 + z ^ 2)))
       (nadd K (ndiv (nmul E (Some (R0 ^ 2 - rho ^ 2 - z ^ 2))) dist)).

Definition Brho_raw (R0 x y z : R) : num :=
  let rho := rho x y in
  let E := match ell_arg R0 x y z with Some m => ellipe m | None => None end in
  let K := match ell_arg R0 x y z with Some m => ellipk m | None => None end in
  let dist := dist R0 x y z in
  nmul (ndiv (Some z) (rho * sqrt ((R0 + rho) ^ 2 + z ^ 2)))
       (nadd (nneg K) (ndiv (nmul E (Some (R0 ^ 2 + rho ^ 2 + z ^ 2))) dist)).

(** [Brho[dist == 0] = 0; Brho[rho == 0] = 0] *)
Definition Brho (R0 x y z : R) : num :=
  let b := if Req_EM_T (dist R0 x y z) 0 then Some 0 else Brho_raw R0 x y z in
  if Req_EM_T (rho x y) 0 then Some 0 else b.

(** [Bz[dist == 0] = 0] *)
Definition Bz (R0 x y z : R) : num :=
  if Req_EM_T (dist R0 x y z) 0 then Some 0 else Bz_raw R0 x y z.

(** [B = np.c_[cos(theta) * Brho, sin(theta) * Brho, Bz]] then
    [np.dot(B, trans)] with [trans = np.vstack((l, m, n))]. *)
Definition B_point (l m n : V3) (R0 x y z : R) : num * num * num :=
  let th := theta x y in
  let b0 := nmul (option_map cos th) (Brho R0 x y z) in
  let b1 := nmul (option_map sin th) (Brho R0 x y z) in
  let b2 := Bz R0 x y z in
  let col (f : V3 -> R) :=
    nadd (nadd (nmul b0 (Some (f l))) (nmul b1 (Some (f m)))) (nmul b2 (Some (f n))) in
  (col c0, col c1, col c2).

End BField.
End Coil.

(* ------------------------------------------------------------------ *)
(** ** The scripts as programs over the external libraries

    Each script is a sequence of top-level statements.  A statement that
    calls into a library (an import included) is a [call]; whether it raises
    is decided by the oracle [lib], which may depend on everything that ran
    before.  The run records a trace of events; the outcome is normal
    completion, an exception that escaped to the top level, or
    [SystemExit]. *)

Module Repo.
Local Open Scope list_scope.

Inductive Event :=
| ECall (stmt : string) (raised : option string)
| EPlot (fig : string)
| EGui (widget : string)
| EPrint (msg : string).

Inductive Outcome (A : Type) :=
| Done (a : A)
| Raised (e : string)
| Exited.
Arguments Done {A} a.
Arguments Raised {A} e.
Arguments Exited {A}.

Record Env := mkEnv { platform : string; argv : list string }.

Definition M (A : Type) := list Event -> list Event * Outcome A.

Definition Oracle := list Event -> string -> option string.

Section Prog.
Variable lib : Oracle.
(** Values of data-dependent tests of the script (e.g. on solver output). *)
Variable test : list Event -> string -> bool.

Definition ret {A} (a : A) : M A := fun tr => (tr, Done a).

(** Python statements run in order; an exception or [sys.exit] skips the
    rest of the script. *)
Definition bind {A B} (m : M A) (k : A -> M B) : M B := fun tr =>
  match m tr with
  | (tr1, Done a) => k a tr1
  | (tr1, Raised e) => (tr1, Raised e)
  | (tr1, Exited) => (tr1, Exited)
  end.

Local Notation "m ;; k" := (bind m (fun _ => k)) (at level 61, right associativity).

Definition call (stmt : string) : M unit := fun tr =>
  match lib tr stmt with
  | None => (tr ++ [ECall stmt None], Done tt)
  | Some e => (tr ++ [ECall stmt (Some e)], Raised e)
  end.

Definition emit (ev : Event) : M unit := fun tr => (tr ++ [ev], Done tt).

(** A plotting call: when it returns, a figure has been drawn. *)
Definition plot (stmt : string) : M unit := call stmt ;; emit (EPlot stmt).

(** A call that shows a GUI widget. *)
Definition gui (stmt : string) : M unit := call stmt ;; emit (EGui stmt).

Definition print (msg : string) : M unit := emit (EPrint msg).

Definition sys_exit : M unit := fun tr => (tr, Exited).

Definition cond (stmt : string) : M bool := fun tr => (tr, Done (test tr stmt)).

(** [for i in range(n): body(i)] *)
Fixpoint for_from (i n : nat) (body : nat -> M unit) : M unit :=
  match n with
  | O => ret tt
  | S n' => body i ;; for_from (S i) n' body
  end.

Definition for_range (n : nat) (body : nat -> M unit) : M unit := for_from 0 n body.

Definition calls (stmts : list string) : M unit :=
  fold_right (fun s k => call s ;; k) (ret tt) stmts.

Definition pyflag (b : bool) : string := if b then "True" else "False".

(* ---- Beys_Gallery/pyfin_alt_risk.py ---- *)

Definition pyfin_imports : M unit :=
  calls ["get_ipython().run_line_magic('matplotlib', 'inline')";
         "import numpy as np"; "import numpy.linalg as lin";
         "import scipy.optimize as opt"; "import cvxpy as cvx";
         "import pandas as pd"; "import matplotlib.pyplot as plt";
         "from matplotlib.font_manager import FontProperties"; "import sys"].

(** Lines 23-31. *)
Definition pyfin_font_cell (env : Env) : M string :=
  match PyfinFont.select_font (platform env) with
  | PyfinFont.SetFontPath p => ret p
  | PyfinFont.PrintAndExit msg => print msg ;; sys_exit ;; ret ""
  end.

(** One [for idx, Target_Return.value in enumerate(V_Target)] loop. *)
Definition pyfin_sweep (solve_stmt store_stmt : string) : M unit :=
  call "V_Target = np.linspace(Mu.min(), Mu.max(), num=250)" ;;
  call "V_Risk = np.zeros(V_Target.shape)" ;;
  for_range 250 (fun _ =>
    call "Target_Return.value = V_Target[idx]" ;;
    call solve_stmt ;;
    call store_stmt).

Definition pyfin_rest : M unit :=
  call "jpfont = FontProperties(fname=FontPath)" ;;
  (* In[2] *)
  calls ["R = pd.read_csv('asset_return_data.csv', index_col=0)"; "Mu = R.mean().values"] ;;
  (* In[3], In[4] *)
  calls ["Return_Dev = (R - Mu).values / T"; "Weight = cvx.Variable(N)";
         "Deviation = cvx.Variable(T)"; "Target_Return = cvx.Parameter(nonneg=True)";
         "Risk_AD = cvx.norm(Deviation, 1)"; "Opt_Portfolio = cvx.Problem(cvx.Minimize(Risk_AD), ...)"] ;;
  pyfin_sweep "Opt_Portfolio.solve(solver=cvx.ECOS)" "V_Risk[idx] = Risk_AD.value" ;;
  (* In[5] *)
  calls ["fig1 = plt.figure(num=1, facecolor='w')"; "plt.plot(V_Risk, V_Target, 'b-')";
         "plt.plot((R - Mu).abs().mean().values, Mu, 'rx')"; "plt.legend(...)";
         "plt.xlabel(...)"; "plt.ylabel(...)"] ;;
  plot "plt.show()" ;;
  (* In[6], In[7] *)
  calls ["Return_Dev = (R - Mu).values / np.sqrt(T)"; "Weight = cvx.Variable(N)";
         "Deviation = cvx.Variable(T)"; "Target_Return = cvx.Parameter(nonneg=True)";
         "Risk_Semivariance = cvx.sum_squares(Deviation)";
         "Opt_Portfolio = cvx.Problem(cvx.Minimize(Risk_Semivariance), ...)"] ;;
  pyfin_sweep "Opt_Portfolio.solve(solver=cvx.ECOS)"
              "V_Risk[idx] = np.sqrt(Risk_Semivariance.value)" ;;
  (* In[8] *)
  calls ["fig2 = plt.figure(num=2, facecolor='w')"; "plt.plot(V_Risk, V_Target, 'b-')";
         "plt.plot(np.sqrt(((R[R <= Mu] - Mu) ** 2).sum().values / T), Mu, 'rx')";
         "plt.legend(...)"; "plt.xlabel(...)"; "plt.ylabel(...)"] ;;
  plot "plt.show()" ;;
  (* In[9], In[10] *)
  calls ["Return = R.values / T"; "Weight = cvx.Variable(N)"; "Deviation = cvx.Variable(T)";
         "VaR = cvx.Variable()"; "Alpha = cvx.Parameter(nonneg=True)";
         "Target_Return = cvx.Parameter(nonneg=True)";
         "Risk_ES = cvx.sum(Deviation)/Alpha - VaR";
         "Opt_Portfolio = cvx.Problem(cvx.Minimize(Risk_ES), ...)";
         "V_Alpha = np.array([0.05, 0.10, 0.25, 0.50])";
         "V_Target = np.linspace(Mu.min(), Mu.max(), num=250)";
         "V_Risk = np.zeros((V_Target.shape[0], V_Alpha.shape[0]))"] ;;
  for_range 4 (fun _ =>
    call "Alpha.value = V_Alpha[idx_col]" ;;
    for_range 250 (fun _ =>
      call "Target_Return.value = V_Target[idx_row]" ;;
      call "Opt_Portfolio.solve(solver=cvx.ECOS)" ;;
      call "V_Risk[idx_row, idx_col] = Risk_ES.value")) ;;
  (* In[11] *)
  calls ["fig3 = plt.figure(num=3, facecolor='w')"; "plt.plot(V_Risk[:, 0], V_Target, 'b-')";
         "plt.plot((-R[R <= R.quantile(V_Alpha[0])]).mean().values, Mu, 'rx')";
         "plt.legend(...)"; "plt.xlabel(...)"; "plt.ylabel(...)";
         "fig4 = plt.figure(num=4, facecolor='w')"] ;;
  for_range 4 (fun _ =>
    call "Alpha.value = V_Alpha[idx]" ;;
    call "plt.plot(V_Risk[:, idx], V_Target, color='b', linestyle=LineTypes[idx])") ;;
  calls ["plt.legend(...)"; "plt.xlabel(...)"; "plt.ylabel(...)"] ;;
  plot "plt.show()" ;;
  (* In[12] *)
  calls ["Sigma = np.diag(Stdev) @ CorrMatrix @ np.diag(Stdev)"; "inv_Sigma = lin.inv(Sigma)";
         "Weight_1N = np.tile(1.0/Mu.shape[0], Mu.shape[0])";
         "Weight_MV = inv_Sigma @ iota / (iota @ inv_Sigma @ iota)";
         "Weight_MD = inv_Sigma @ Stdev / (iota @ inv_Sigma @ Stdev)";
         "Weight_RP = opt.root(F, np.hstack((Weight_1N, 0.0)), args=Sigma).x[:-1]";
         "np.set_printoptions(formatter={'float': '{:7.2f}'.format})";
         "print(np.vstack((Weight_1N, Weight_MV, Weight_RP, Weight_MD))*100)"].

Definition pyfin_alt_risk (env : Env) : M unit :=
  pyfin_imports ;;
  bind (pyfin_font_cell env) (fun _ => pyfin_rest).

(* ---- ccx_gallery/multihole.py ---- *)

Definition draw_rect : M unit :=
  calls ["part.draw_line_rad(...)"; "part.draw_line_ax(...)";
         "part.draw_line_rad(-...)"; "part.draw_line_ax(-...)"].

Definition multihole (env : Env) : M unit :=
  calls ["import sys"; "import pycalculix as pyc"; "model = pyc.FeaModel(model_name)";
         "model.set_units('m')"] ;;
  let show_gui := Multihole.show_gui (argv env) in
  let eshape := Multihole.eshape (argv env) in
  let display := String.append "display=" (pyflag show_gui) in
  call "part = pyc.Part(model)" ;;
  call "part.goto(0, 0)" ;; draw_rect ;;
  call "part.goto(1, 1, holemode=True)" ;; draw_rect ;;
  call "part.goto(1.5, 3, holemode=True)" ;; draw_rect ;;
  plot (String.append "model.plot_geometry(model_name+'_prechunk_areas', ...) " display) ;;
  plot (String.append "model.plot_geometry(model_name+'_prechunk_lines', ...) " display) ;;
  plot (String.append "model.plot_geometry(model_name+'_prechunk_points', ...) " display) ;;
  call "part.chunk(debug=[0,0])" ;;
  plot (String.append "model.plot_geometry(model_name+'_chunked_areas', ...) " display) ;;
  call (String.append "model.set_eshape(eshape, 2) eshape=" eshape) ;;
  call "model.set_etype('plstrain', part, 0.1)" ;;
  call "model.mesh(0.7, 'gmsh')" ;;
  plot (String.append "model.plot_elements() " display) ;;
  call "model.view.print_summary()".

(* ---- maya_gallery/compute_field.py ---- *)

(** [B_field(r, n, r0, R)]: the library calls of lines 56-98. *)
Definition B_field_calls : M unit :=
  calls ["trans = np.vstack((l, m, n))"; "inv_trans = linalg.inv(trans)";
         "r = np.dot(r, inv_trans)"; "theta = np.arctan(x / y)";
         "E = special.ellipe(...)"; "K = special.ellipk(...)";
         "B = np.c_[np.cos(theta) * Brho, np.sin(theta) * Brho, Bz]";
         "B = np.dot(B, trans)"].

Definition compute_field (env : Env) : M unit :=
  calls ["import numpy as np"; "from scipy import special, linalg";
         "X, Y, Z = np.mgrid[-0.15:0.15:31j, -0.15:0.15:31j, -0.15:0.15:31j]";
         "X = np.round(X * f) / f"; "Y = np.round(Y * f) / f"; "Z = np.round(Z * f) / f";
         "r = np.c_[np.ravel(X), np.ravel(Y), np.ravel(Z)]";
         "r0 = np.vstack((r0, -r0))"; "R = np.r_[R, R]"; "n = np.vstack((n, n))";
         "B = np.zeros_like(r)"] ;;
  for_range 2 (fun _ => B_field_calls ;; call "B += B_field(r, this_n, this_r0, this_R)").

(* ---- qt_gallery/qt_3d_windows.py ---- *)

Definition qt_imports : M unit :=
  calls ["from PyQt5 import QtCore, QtGui, QtWidgets";
         "from PyQt5.QtWidgets import QApplication, QWidget, ...";
         "from PyQt5.QtWidgets import QWidget, QVBoxLayout";
         "from PyQt5.Qt3DCore import QEntity";
         "from PyQt5.Qt3DExtras import Qt3DWindow, QFirstPersonCameraController";
         "from PyQt5.Qt3DExtras import QTorusMesh, ...";
         "import sys"].

(** [Ui_MainWindow.setupUi(MainWindow)], with [contained3dWindow()]. *)
Definition setupUi : M unit :=
  calls ["MainWindow.setObjectName('MainWindow')"; "MainWindow.resize(1416, 1041)";
         "self.centralwidget = QtWidgets.QWidget(MainWindow)";
         "self.verticalLayoutWidget = QtWidgets.QWidget(self.centralwidget)";
         "self.verticalLayout = QtWidgets.QVBoxLayout(self.verticalLayoutWidget)";
         "MainWindow.setCentralWidget(self.centralwidget)";
         "self.menubar = QtWidgets.QMenuBar(MainWindow)";
         "MainWindow.setMenuBar(self.menubar)";
         "self.statusbar = QtWidgets.QStatusBar(MainWindow)";
         "MainWindow.setStatusBar(self.statusbar)";
         "self.retranslateUi(MainWindow)";
         "QtCore.QMetaObject.connectSlotsByName(MainWindow)";
         "self.view = Qt3DWindow()";
         "container = QWidget.createWindowContainer(self.view)";
         "self.rootEntity = QEntity()";
         "camController = QFirstPersonCameraController(self.rootEntity)";
         "self.view.setRootEntity(self.rootEntity)";
         "self.verticalLayout.addWidget(c_window)"].

(** [repr] of a Python string: quoted, with backslashes and quotes
    escaped. *)
Fixpoint py_escape (s : string) : string :=
  match s with
  | EmptyString => EmptyString
  | String c r =>
      if (Ascii.eqb c "'"%char || Ascii.eqb c "\"%char)%bool
      then String "\"%char (String c (py_escape r))
      else String c (py_escape r)
  end.

(** [repr] of a list of strings such as [sys.argv]. *)
Definition py_str_list (l : list string) : string :=
  String.append "["
    (String.append
       (String.concat ", " (map (fun a => String.append "'" (String.append (py_escape a) "'")) l))
       "]").

(** [QtWidgets.QApplication(sys.argv)]: the library is handed the value of
    [sys.argv], so its answer (and, through the trace, that of every later
    Qt call) may depend on the command line. *)
Definition qapp_stmt (argv : list string) : string :=
  String.append "app = QtWidgets.QApplication(sys.argv) sys.argv=" (py_str_list argv).

(** The [__main__] block (the file is run as a script).  The whole of
    [sys.argv] is handed to [QApplication], which parses Qt's own options
    from it. *)
Definition qt_3d_windows (env : Env) : M unit :=
  qt_imports ;;
  call (qapp_stmt (argv env)) ;;
  call "MainWindow = QtWidgets.QMainWindow()" ;;
  setupUi ;;
  gui "MainWindow.show()" ;;
  call "app.exec_()" ;;
  sys_exit.

(* ---- meep_gallery/polarization_grating.py ---- *)

(** [pol_grating(d, ph, gp, nmode)] *)
Definition pol_grating : M unit :=
  calls ["cell_size = mp.Vector3(sx,sy,0)"; "geometry = [mp.Block(...), mp.Block(..., material=lc_mat)]";
         "sources = [mp.Source(...), mp.Source(...)]"; "sim = mp.Simulation(...)";
         "tran_flux = sim.add_flux(...)"; "sim.run(until_after_sources=100)";
         "input_flux = mp.get_fluxes(tran_flux)"; "input_flux_data = sim.get_flux_data(tran_flux)";
         "sim.reset_meep()"; "sim = mp.Simulation(..., geometry=geometry)";
         "tran_flux = sim.add_flux(...)"; "sim.run(until_after_sources=300)";
         "res1 = sim.get_eigenmode_coefficients(..., eig_parity=mp.ODD_Z+mp.EVEN_Y)";
         "res2 = sim.get_eigenmode_coefficients(..., eig_parity=mp.EVEN_Z+mp.ODD_Y)";
         "angles = [math.degrees(math.acos(kdom.x/fcen)) for kdom in res1.kdom]"].

Definition polarization_grating (env : Env) : M unit :=
  calls ["import meep as mp"; "import math"; "import numpy as np";
         "import matplotlib.pyplot as plt"; "k_point = mp.Vector3(0,0,0)";
         "pml_layers = [mp.PML(thickness=dpml,direction=mp.X)]";
         "epsilon_diag = mp.Matrix(...)"; "dd = np.arange(0.2,3.5,0.2)";
         "m0_uniaxial = np.zeros(dd.size)"] ;;
  for_range 17 (fun _ =>
    pol_grating ;;
    call "tran = (abs(coeffs1)**2+abs(coeffs2)**2)/input_flux" ;;
    for_range 5 (fun _ => print "tran (uniaxial):, {}, {:.2f}, {:.5f}") ;;
    pol_grating ;;
    call "tran = (abs(coeffs1)**2+abs(coeffs2)**2)/input_flux" ;;
    for_range 5 (fun _ => print "tran (twisted):, {}, {:.2f}, {:.5f}")) ;;
  calls ["eff_m0 = m0_uniaxial/tran"; "eff_m1 = (2*m1_uniaxial/tran)/cos_angles";
         "phase = delta_n*dd/wvl"; "plt.figure(dpi=150)"; "plt.subplot(1,2,1)";
         "plt.plot(phase,eff_m0,'bo-',...)"; "plt.plot(phase,eff_m0_analytic,'b--',...)";
         "plt.plot(phase,eff_m1,'ro-',...)"; "plt.plot(phase,eff_m1_analytic,'r--',...)";
         "plt.axis([0, 1.0, 0, 1])"; "plt.legend(loc='center')";
         "plt.title('homogeneous uniaxial grating')";
         "eff_m0 = m0_twisted/tran"; "eff_m1 = (2*m1_twisted/tran)/cos_angles";
         "plt.subplot(1,2,2)"; "plt.plot(phase,eff_m0,'bo-',...)"; "plt.plot(phase,eff_m1,'ro-',...)";
         "plt.title('bilayer twisted-nematic grating')"; "plt.tight_layout()"] ;;
  plot "plt.show()".

(* ---- meep_gallery/solve-cw.py ---- *)

Definition solve_cw (env : Env) : M unit :=
  calls ["import meep as mp"; "import numpy as np"; "from numpy import linalg as LA";
         "import matplotlib.pyplot as plt"; "cell_size = mp.Vector3(sxy,sxy)";
         "pml_layers = [mp.PML(dpml)]"; "nonpml_vol = mp.Volume(...)";
         "geometry = [mp.Cylinder(...), mp.Cylinder(radius=r)]";
         "src = [mp.Source(mp.ContinuousSource(fcen), ...), ...]";
         "symmetries = [mp.Mirror(mp.X,phase=-1), mp.Mirror(mp.Y,phase=+1)]";
         "sim = mp.Simulation(..., force_complex_fields=True, ...)";
         "f = plt.figure(dpi=120)"; "sim.plot2D(ax=f.gca())"] ;;
  plot "plt.show()" ;;
  calls ["tols = np.power(10, np.arange(-8.0,-8.0-num_tols,-1.0))";
         "ez_dat = np.zeros((122,122,num_tols), dtype=np.complex_)"] ;;
  for_range 5 (fun _ =>
    calls ["sim.init_sim()"; "sim.solve_cw(tols[i], 10000, 10)";
           "ez_dat[:,:,i] = sim.get_array(vol=nonpml_vol, component=mp.Ez)"]) ;;
  call "err_dat = np.zeros(num_tols-1)" ;;
  for_range 4 (fun _ => call "err_dat[i] = LA.norm(ez_dat[:,:,i]-ez_dat[:,:,num_tols-1])") ;;
  calls ["plt.figure(dpi=150)"; "plt.loglog(tols[:num_tols-1], err_dat, 'bo-')";
         "plt.xlabel(...)"; "plt.ylabel(...)"] ;;
  plot "plt.show()" ;;
  calls ["eps_data = sim.get_array(vol=nonpml_vol, component=mp.Dielectric)";
         "ez_data = np.real(ez_dat[:,:,num_tols-1])"; "plt.figure()";
         "plt.imshow(eps_data.transpose(), ...)"; "plt.imshow(ez_data.transpose(), ...)";
         "plt.axis('off')"] ;;
  plot "plt.show()" ;;
  call "np.all(np.diff(err_dat) < 0)" ;;
  bind (cond "np.all(np.diff(err_dat) < 0)") (fun b =>
    if b then print "PASSED solve_cw test: error in the fields is decreasing with increasing resolution"
    else print "FAILED solve_cw test: error in the fields is NOT decreasing with increasing resolution") ;;
  calls ["sim.reset_meep()"; "src = [mp.Source(mp.GaussianSource(fcen,fwidth=df), ...), ...]";
         "sim = mp.Simulation(...)";
         "dft_obj = sim.add_dft_fields([mp.Ez], fcen, 0, 1, where=nonpml_vol)";
         "sim.run(until_after_sources=100)";
         "eps_data = sim.get_array(vol=nonpml_vol, component=mp.Dielectric)";
         "ez_data = np.real(sim.get_dft_array(dft_obj, mp.Ez, 0))"; "plt.figure()";
         "plt.imshow(eps_data.transpose(), ...)"; "plt.imshow(ez_data.transpose(), ...)";
         "plt.axis('off')"] ;;
  plot "plt.show()".

(* ---- meep_gallery/cylinder_cross_section.py ---- *)

Definition cylinder_cross_section (env : Env) : M unit :=
  calls ["import meep as mp"; "import numpy as np"; "import matplotlib.pyplot as plt";
         "pml_layers = [mp.PML(thickness=dpml)]"; "cell_size = mp.Vector3(sr,0,sz)";
         "sources = [mp.Source(...), mp.Source(..., amplitude=-1j)]";
         "sim = mp.Simulation(..., dimensions=mp.CYLINDRICAL, m=-1)";
         "box_z1 = sim.add_flux(...)"; "box_z2 = sim.add_flux(...)"; "box_r = sim.add_flux(...)";
         "sim.run(until_after_sources=10)"; "freqs = mp.get_flux_freqs(box_z1)";
         "box_z1_data = sim.get_flux_data(box_z1)"; "box_z2_data = sim.get_flux_data(box_z2)";
         "box_r_data = sim.get_flux_data(box_r)"; "box_z1_flux0 = mp.get_fluxes(box_z1)";
         "sim.reset_meep()"; "geometry = [mp.Block(...)]";
         "sim = mp.Simulation(..., geometry=geometry, ...)";
         "box_z1 = sim.add_flux(...)"; "box_z2 = sim.add_flux(...)"; "box_r  = sim.add_flux(...)";
         "sim.load_minus_flux_data(box_z1, box_z1_data)";
         "sim.load_minus_flux_data(box_z2, box_z2_data)";
         "sim.load_minus_flux_data(box_r, box_r_data)";
         "sim.run(until_after_sources=100)"; "box_z1_flux = mp.get_fluxes(box_z1)";
         "box_z2_flux = mp.get_fluxes(box_z2)"; "box_r_flux = mp.get_fluxes(box_r)";
         "scatt_flux = np.asarray(box_z1_flux)-np.asarray(box_z2_flux)-np.asarray(box_r_flux)";
         "intensity = np.asarray(box_z1_flux0)/(np.pi*r**2)";
         "scatt_cross_section = np.divide(-scatt_flux,intensity)";
         "plt.figure(dpi=150)"; "plt.loglog(2*np.pi*r*np.asarray(freqs),scatt_cross_section,'bo-')";
         "plt.grid(True,which='both',ls='-')"; "plt.xlabel(...)"; "plt.ylabel(...)";
         "plt.title(...)"; "plt.tight_layout()"] ;;
  plot "plt.show()".

(* ---- sfepy_gallery/diffusion/poisson_periodic_boundary_condition.py ---- *)

(** A problem-description file: its top level only imports and binds
    [filename_mesh], [materials], [fields], ..., [options]; the function
    [cylinder_material_func] is defined, not called. *)
Definition poisson_periodic_boundary_condition (env : Env) : M unit :=
  calls ["from __future__ import absolute_import"; "from sfepy import data_dir";
         "import numpy as nm"; "import sfepy.discrete.fem.periodic as per"].

(* ---- the repository ---- *)

Inductive Script :=
| S_pyfin_alt_risk | S_multihole | S_compute_field | S_qt_3d_windows
| S_polarization_grating | S_solve_cw | S_cylinder_cross_section
| S_poisson_periodic_boundary_condition.

Definition Script_eq_dec (a b : Script) : {a = b} + {a <> b}.
Proof. decide equality. Defined.

Definition all_scripts : list Script :=
  [S_pyfin_alt_risk; S_multihole; S_compute_field; S_qt_3d_windows;
   S_polarization_grating; S_solve_cw; S_cylinder_cross_section;
   S_poisson_periodic_boundary_condition].

Definition script (s : Script) : Env -> M unit :=
  match s with
  | S_pyfin_alt_risk => pyfin_alt_risk
  | S_multihole => multihole
  | S_compute_field => compute_field
  | S_qt_3d_windows => qt_3d_windows
  | S_polarization_grating => polarization_grating
  | S_solve_cw => solve_cw
  | S_cylinder_cross_section => cylinder_cross_section
  | S_poisson_periodic_boundary_condition => poisson_periodic_boundary_condition
  end.

(** Running a script as a fresh process. *)
Definition run (s : Script) (env : Env) : list Event * Outcome unit :=
  script s env [].

End Prog.

Definition is_plot (ev : Event) : bool :=
  match ev with EPlot _ => true | _ => false end.

(** The trace shows at least one drawn figure. *)
Definition has_plot (tr : list Event) : bool := existsb is_plot tr.

(** The oracle under which every library call returns normally. *)
Definition lib_ok : Oracle := fun _ _ => None.

End Repo.

(* ================================================================== *)
(** * Properties of the script programs *)

Module RepoProps.
Import Repo.
Local Open Scope list_scope.

(** No call in the trace has raised. *)
Definition no_fail (tr : list Event) : Prop := forall c e, ~ In (ECall c (Some e)) tr.

Ltac unfold_scripts :=
  unfold run, script, pyfin_alt_risk, pyfin_rest, pyfin_sweep, pyfin_font_cell,
    pyfin_imports, multihole, draw_rect, compute_field, B_field_calls,
    qt_3d_windows, qt_imports, setupUi, polarization_grating, pol_grating,
    solve_cw, cylinder_cross_section, poisson_periodic_boundary_condition,
    for_range; cbv zeta.

(** One step of a structural proof over a script: apply the closure lemma
    for the head combinator. *)
Ltac prog_step lret lbind lcall lcalls lemit lexit lcond lfor :=
  match goal with
  | |- forall _, _ => intro
  | |- _ (ret _) => apply lret
  | |- _ (bind _ _) => apply lbind
  | |- _ (call _ _) => apply lcall
  | |- _ (calls _ _) => apply lcalls
  | |- _ (emit _) => apply lemit; try (intros; discriminate); try reflexivity
  | |- _ sys_exit => apply lexit
  | |- _ (cond _ _) => apply lcond
  | |- _ (for_from _ _ _) => apply lfor
  | |- _ (plot _ _) => unfold plot
  | |- _ (gui _ _) => unfold gui
  | |- _ (print _) => unfold print
  | |- _ (match ?x with _ => _ end) => destruct x
  end.

Ltac unfold_scripts_in H :=
  unfold run, script, pyfin_alt_risk, pyfin_rest, pyfin_sweep, pyfin_font_cell,
    pyfin_imports, multihole, draw_rect, compute_field, B_field_calls,
    qt_3d_windows, qt_imports, setupUi, polarization_grating, pol_grating,
    solve_cw, cylinder_cross_section, poisson_periodic_boundary_condition,
    for_range in H; cbv zeta in H.

Section Closure.
Variable lib : Oracle.
Variable test : list Event -> string -> bool.

(** An exception ends the program at the call that raised it, and no
    earlier call has raised. *)
Definition safe {A} (m : M A) : Prop :=
  forall tr, no_fail tr ->
  match m tr with
  | (tr', Raised e) => exists pre c, tr' = pre ++ [ECall c (Some e)] /\ no_fail pre
  | (tr', _) => no_fail tr'
  end.

Definition no_exit {A} (m : M A) : Prop := forall tr, snd (m tr) <> Exited.

Definition no_plot {A} (m : M A) : Prop :=
  forall tr, has_plot tr = false -> has_plot (fst (m tr)) = false.

(** The program only appends to the trace. *)
Definition extends {A} (m : M A) : Prop := forall tr, exists suf, fst (m tr) = tr ++ suf.

Lemma no_fail_app (tr1 tr2 : list Event) :
  no_fail tr1 -> no_fail tr2 -> no_fail (tr1 ++ tr2).
Proof.
  intros H1 H2 c e Hin. apply in_app_or in Hin as [Hin|Hin]; [exact (H1 c e Hin) | exact (H2 c e Hin)].
Qed.

Lemma no_fail_single (ev : Event) :
  (forall c e, ev <> ECall c (Some e)) -> no_fail [ev].
Proof. intros H c e [Heq|[]]. apply (H c e); auto. Qed.

Lemma safe_ret {A} (a : A) : safe (ret a).
Proof. intros tr H; exact H. Qed.

Lemma safe_bind {A B} (m : M A) (k : A -> M B) :
  safe m -> (forall a, safe (k a)) -> safe (bind m k).
Proof.
  intros Hm Hk tr Hnf. unfold bind. specialize (Hm tr Hnf).
  destruct (m tr) as [tr1 [a|e|]]; auto. apply Hk; exact Hm.
Qed.

Lemma safe_call (s : string) : safe (call lib s).
Proof.
  intros tr Hnf. unfold call. destruct (lib tr s) as [e|].
  - exists tr, s. auto.
  - apply no_fail_app; auto. apply no_fail_single. congruence.
Qed.

Lemma safe_emit (ev : Event) : (forall c e, ev <> ECall c (Some e)) -> safe (emit ev).
Proof. intros H tr Hnf. apply no_fail_app; auto using no_fail_single. Qed.

Lemma safe_exit : safe sys_exit.
Proof. intros tr H; exact H. Qed.

Lemma safe_cond (s : string) : safe (cond test s).
Proof. intros tr H; exact H. Qed.

Lemma safe_for_from (i n : nat) (body : nat -> M unit) :
  (forall j, safe (body j)) -> safe (for_from i n body).
Proof.
  intros Hb. revert i. induction n as [|n IH]; intros i; simpl.
  - apply safe_ret.
  - apply safe_bind; auto.
Qed.

Lemma safe_calls (ss : list string) : safe (calls lib ss).
Proof.
  induction ss as [|s ss IH]; simpl.
  - apply safe_ret.
  - apply safe_bind; auto using safe_call.
Qed.

Lemma no_exit_ret {A} (a : A) : no_exit (ret a).
Proof. intros tr; cbn; discriminate. Qed.

Lemma no_exit_bind {A B} (m : M A) (k : A -> M B) :
  no_exit m -> (forall a, no_exit (k a)) -> no_exit (bind m k).
Proof.
  intros Hm Hk tr. unfold bind. specialize (Hm tr).
  destruct (m tr) as [tr1 [a|e|]]; simpl in *; [apply Hk | congruence | congruence].
Qed.

Lemma no_exit_call (s : string) : no_exit (call lib s).
Proof. intros tr. unfold call. destruct (lib tr s); cbn; congruence. Qed.

Lemma no_exit_emit (ev : Event) : no_exit (emit ev).
Proof. intros tr; cbn; discriminate. Qed.

Lemma no_exit_cond (s : string) : no_exit (cond test s).
Proof. intros tr; cbn; discriminate. Qed.

Lemma no_exit_for_from (i n : nat) (body : nat -> M unit) :
  (forall j, no_exit (body j)) -> no_exit (for_from i n body).
Proof.
  intros Hb. revert i. induction n as [|n IH]; intros i; simpl.
  - apply no_exit_ret.
  - apply no_exit_bind; auto.
Qed.

Lemma no_exit_calls (ss : list string) : no_exit (calls lib ss).
Proof.
  induction ss as [|s ss IH]; simpl.
  - apply no_exit_ret.
  - apply no_exit_bind; auto using no_exit_call.
Qed.

Lemma has_plot_app (tr1 tr2 : list Event) :
  has_plot (tr1 ++ tr2) = (has_plot tr1 || has_plot tr2)%bool.
Proof. unfold has_plot. apply existsb_app. Qed.

Lemma no_plot_ret {A} (a : A) : no_plot (ret a).
Proof. intros tr H; exact H. Qed.

Lemma no_plot_bind {A B} (m : M A) (k : A -> M B) :
  no_plot m -> (forall a, no_plot (k a)) -> no_plot (bind m k).
Proof.
  intros Hm Hk tr H. unfold bind. specialize (Hm tr H).
  destruct (m tr) as [tr1 [a|e|]]; simpl in *; auto. apply Hk; exact Hm.
Qed.

Lemma no_plot_call (s : string) : no_plot (call lib s).
Proof.
  intros tr H. unfold call. destruct (lib tr s); simpl; rewrite has_plot_app, H; reflexivity.
Qed.

Lemma no_plot_emit (ev : Event) : is_plot ev = false -> no_plot (emit ev).
Proof. intros Hev tr H. simpl. rewrite has_plot_app, H. simpl. rewrite Hev. reflexivity. Qed.

Lemma no_plot_exit : no_plot sys_exit.
Proof. intros tr H; exact H. Qed.

Lemma no_plot_cond (s : string) : no_plot (cond test s).
Proof. intros tr H; exact H. Qed.

Lemma no_plot_for_from (i n : nat) (body : nat -> M unit) :
  (forall j, no_plot (body j)) -> no_plot (for_from i n body).
Proof.
  intros Hb. revert i. induction n as [|n IH]; intros i; simpl.
  - apply no_plot_ret.
  - apply no_plot_bind; auto.
Qed.

Lemma no_plot_calls (ss : list string) : no_plot (calls lib ss).
Proof.
  induction ss as [|s ss IH]; simpl.
  - apply no_plot_ret.
  - apply no_plot_bind; auto using no_plot_call.
Qed.

Lemma extends_ret {A} (a : A) : extends (ret a).
Proof. intros tr. exists []. simpl. rewrite app_nil_r. reflexivity. Qed.

Lemma extends_bind {A B} (m : M A) (k : A -> M B) :
  extends m -> (forall a, extends (k a)) -> extends (bind m k).
Proof.
  intros Hm Hk tr. unfold bind. destruct (Hm tr) as [s1 Hs1].
  destruct (m tr) as [tr1 [a|e|]]; simpl in *; subst.
  - destruct (Hk a (tr ++ s1)) as [s2 Hs2]. exists (s1 ++ s2). rewrite Hs2, app_assoc. reflexivity.
  - exists s1; reflexivity.
  - exists s1; reflexivity.
Qed.

Lemma extends_call (s : string) : extends (call lib s).
Proof. intros tr. unfold call. destruct (lib tr s); eexists; reflexivity. Qed.

Lemma extends_emit (ev : Event) : extends (emit ev).
Proof. intros tr. eexists; reflexivity. Qed.

Lemma extends_exit : extends sys_exit.
Proof. intros tr. exists []. simpl. rewrite app_nil_r. reflexivity. Qed.

Lemma extends_cond (s : string) : extends (cond test s).
Proof. intros tr. exists []. simpl. rewrite app_nil_r. reflexivity. Qed.

Lemma extends_for_from (i n : nat) (body : nat -> M unit) :
  (forall j, extends (body j)) -> extends (for_from i n body).
Proof.
  intros Hb. revert i. induction n as [|n IH]; intros i; simpl.
  - apply extends_ret.
  - apply extends_bind; auto.
Qed.

Lemma extends_calls (ss : list string) : extends (calls lib ss).
Proof.
  induction ss as [|s ss IH]; simpl.
  - apply extends_ret.
  - apply extends_bind; auto using extends_call.
Qed.

Lemma safe_script (s : Script) (env : Env) : safe (script lib test s env).
Proof.
  destruct s; unfold_scripts;
  repeat prog_step @safe_ret @safe_bind safe_call safe_calls safe_emit safe_exit
                   safe_cond safe_for_from.
Qed.

Lemma extends_script (s : Script) (env : Env) : extends (script lib test s env).
Proof.
  destruct s; unfold_scripts;
  repeat prog_step @extends_ret @extends_bind extends_call extends_calls extends_emit
                   extends_exit extends_cond extends_for_from.
Qed.

(** Every script but the portfolio and the Qt one never calls [sys.exit]. *)
Lemma no_exit_script (s : Script) (env : Env) :
  s <> S_pyfin_alt_risk -> s <> S_qt_3d_windows -> no_exit (script lib test s env).
Proof.
  intros H1 H2. destruct s; try congruence; unfold_scripts;
  repeat prog_step @no_exit_ret @no_exit_bind no_exit_call no_exit_calls no_exit_emit
                   @no_exit_ret no_exit_cond no_exit_for_from.
Qed.

Lemma no_plot_script (s : Script) (env : Env) :
  s = S_compute_field \/ s = S_qt_3d_windows \/ s = S_poisson_periodic_boundary_condition ->
  no_plot (script lib test s env).
Proof.
  intros Hs. destruct Hs as [->|[->| ->]]; unfold_scripts;
  repeat prog_step @no_plot_ret @no_plot_bind no_plot_call no_plot_calls no_plot_emit
                   no_plot_exit no_plot_cond no_plot_for_from.
Qed.

Lemma bind_done {A B} (m : M A) (k : A -> M B) tr tr' b :
  bind m k tr = (tr', Done b) ->
  exists tr1 a, m tr = (tr1, Done a) /\ k a tr1 = (tr', Done b).
Proof.
  unfold bind. destruct (m tr) as [tr1 [a|e|]]; intros H; try discriminate. eauto.
Qed.

Lemma bind_exited {A B} (m : M A) (k : A -> M B) tr tr' :
  no_exit m -> bind m k tr = (tr', Exited) ->
  exists tr1 a, m tr = (tr1, Done a) /\ k a tr1 = (tr', Exited).
Proof.
  intros Hm. specialize (Hm tr). unfold bind.
  destruct (m tr) as [tr1 [a|e|]]; intros H; try discriminate; eauto.
  simpl in Hm. congruence.
Qed.

Lemma plot_bind_done {B} (x : string) (k : unit -> M B) tr tr' b :
  (forall a, extends (k a)) ->
  bind (plot lib x) k tr = (tr', Done b) -> has_plot tr' = true.
Proof.
  intros Hk H. apply bind_done in H as (tr1 & a & H1 & H2).
  unfold plot, bind, call, emit in H1. destruct (lib tr x); [discriminate|].
  injection H1 as <- _. destruct (Hk a ((tr ++ [ECall x None]) ++ [EPlot x])) as [suf Hs].
  rewrite H2 in Hs. simpl in Hs. subst tr'.
  rewrite !has_plot_app. simpl. rewrite !orb_true_r. reflexivity.
Qed.

Lemma plot_done (x : string) tr tr' b :
  plot lib x tr = (tr', Done b) -> has_plot tr' = true.
Proof.
  intros H. unfold plot, bind, call, emit in H. destruct (lib tr x); [discriminate|].
  injection H as <- _. rewrite !has_plot_app. simpl. rewrite !orb_true_r. reflexivity.
Qed.

Lemma pyfin_parts_no_exit : no_exit (pyfin_imports lib) /\ no_exit (pyfin_rest lib).
Proof.
  split; unfold_scripts;
  repeat prog_step @no_exit_ret @no_exit_bind no_exit_call no_exit_calls no_exit_emit
                   @no_exit_ret no_exit_cond no_exit_for_from.
Qed.

Lemma app_cons_eq_snoc (pre pre' rest : list Event) (x y : Event) :
  pre' ++ x :: rest = pre ++ [y] -> (rest = [] /\ x = y) \/ In x pre.
Proof.
  destruct rest as [|r rest'] using rev_ind; intros H.
  - left. apply app_inj_tail in H as [_ ->]. auto.
  - right. rewrite app_comm_cons, app_assoc in H. apply app_inj_tail in H as [<- _].
    apply in_or_app. right. left. reflexivity.
Qed.

(** A script ends with [SystemExit] only on the portfolio script's
    unsupported-platform path, or at the last line of the Qt script after
    [app.exec_()] has returned. *)
Lemma exit_paths (s : Script) (env : Env) tr :
  script lib test s env [] = (tr, Exited) ->
  (s = S_pyfin_alt_risk /\
     exists msg, PyfinFont.select_font (platform env) = PyfinFont.PrintAndExit msg) \/
  (s = S_qt_3d_windows /\ exists pre, tr = pre ++ [ECall "app.exec_()" None]).
Proof.
  intros H.
  destruct (Script_eq_dec s S_pyfin_alt_risk) as [->|Hp];
  [|destruct (Script_eq_dec s S_qt_3d_windows) as [->|Hq]].
  - left. split; [reflexivity|].
    destruct pyfin_parts_no_exit as [Hi Hr].
    unfold script, pyfin_alt_risk in H.
    apply bind_exited in H as (tr1 & a & _ & H); [|exact Hi].
    unfold pyfin_font_cell in H.
    destruct (PyfinFont.select_font (platform env)) as [p|msg]; [|exists msg; reflexivity].
    change (pyfin_rest lib tr1 = (tr, Exited)) in H.
    exfalso. apply (Hr tr1). rewrite H. reflexivity.
  - right. split; [reflexivity|].
    unfold script, qt_3d_windows, qt_imports, setupUi in H.
    do 5 (apply bind_exited in H as (? & ? & _ & H);
            [|repeat prog_step @no_exit_ret @no_exit_bind no_exit_call no_exit_calls
                       no_exit_emit @no_exit_ret no_exit_cond no_exit_for_from]).
    unfold bind, call, sys_exit in H. destruct (lib _ "app.exec_()"); [discriminate|].
    injection H as <-. eauto.
  - exfalso. apply (no_exit_script s env Hp Hq []). rewrite H. reflexivity.
Qed.

End Closure.

Ltac close_extends :=
  repeat prog_step @extends_ret @extends_bind extends_call extends_calls extends_emit
                   extends_exit extends_cond extends_for_from.

(** Follow a completed run up to its first plotting call. *)
Ltac peel_to_plot H :=
  match type of H with
  | bind (plot _ _) _ _ = (_, Done _) =>
      apply plot_bind_done in H; [exact H | intro; close_extends]
  | plot _ _ _ = (_, Done _) => apply plot_done in H; exact H
  | bind _ _ _ = (_, Done _) =>
      let tr1 := fresh "tr" in let a := fresh "a" in let H1 := fresh "H" in
      apply bind_done in H; destruct H as (tr1 & a & H1 & H); clear H1; cbv beta in H;
      peel_to_plot H
  end.

End RepoProps.

Module QtArgs.
Import Repo.
Local Open Scope list_scope.

(** [sys.argv] without the two flags that [multihole.py] reads. *)
Definition strip_flags (a : list string) : list string :=
  filter (fun x => negb (String.eqb x "-nogui" || String.eqb x "-tri")) a.

(** Two library calls that are the same, or are the [QApplication] call
    on command lines that differ only in those flags. *)
Definition stmt_rel (s s' : string) : Prop :=
  s = s' \/ exists a b, strip_flags a = strip_flags b /\ s = qapp_stmt a /\ s' = qapp_stmt b.

Definition event_rel (e e' : Event) : Prop :=
  e = e' \/ exists a b r, strip_flags a = strip_flags b /\
                          e = ECall (qapp_stmt a) r /\ e' = ECall (qapp_stmt b) r.

Definition trace_rel : list Event -> list Event -> Prop := Forall2 event_rel.

(** What the libraries are assumed to do with the flags: nothing.  Qt's
    [QApplication] parses only its own options ([-platform], [-style],
    [-reverse], ...), and ["-nogui"] and ["-tri"] are not among them, so no
    library answer tells apart two command lines that differ only in these
    flags. *)
Definition lib_ignores_flags (lib : Oracle) : Prop :=
  forall tr tr' s s', trace_rel tr tr' -> stmt_rel s s' -> lib tr s = lib tr' s'.

(** Two programs that, from related traces, produce related traces and the
    same outcome. *)
Definition sim {A} (lib : Oracle) (m0 m1 : M A) : Prop :=
  forall tr0 tr1, trace_rel tr0 tr1 ->
  trace_rel (fst (m0 tr0)) (fst (m1 tr1)) /\ snd (m0 tr0) = snd (m1 tr1).

Section Sim.
Variable lib : Oracle.
Hypothesis Hlib : lib_ignores_flags lib.

Lemma trace_rel_snoc (tr0 tr1 : list Event) (e0 e1 : Event) :
  trace_rel tr0 tr1 -> event_rel e0 e1 -> trace_rel (tr0 ++ [e0]) (tr1 ++ [e1]).
Proof. intros H He. apply Forall2_app; [exact H | constructor; [exact He | constructor]]. Qed.

Lemma sim_call (s s' : string) : stmt_rel s s' -> sim lib (call lib s) (call lib s').
Proof.
  intros Hs tr0 tr1 Htr. unfold call. rewrite (Hlib tr0 tr1 s s' Htr Hs).
  assert (He : forall r, event_rel (ECall s r) (ECall s' r)).
  { intros r. destruct Hs as [->|(a & b & Hab & -> & ->)];
      [left; reflexivity | right; exists a, b, r; auto]. }
  destruct (lib tr1 s'); cbn; (split; [apply trace_rel_snoc; auto | reflexivity]).
Qed.

Lemma sim_call_same (s : string) : sim lib (call lib s) (call lib s).
Proof. apply sim_call. left. reflexivity. Qed.

Lemma sim_emit (ev : Event) : sim lib (emit ev) (emit ev).
Proof.
  intros tr0 tr1 Htr. cbn. split; [apply trace_rel_snoc; [exact Htr | left; reflexivity] | reflexivity].
Qed.

Lemma sim_ret {A} (a : A) : sim lib (ret a) (ret a).
Proof. intros tr0 tr1 Htr. split; [exact Htr | reflexivity]. Qed.

Lemma sim_exit : sim lib sys_exit sys_exit.
Proof. intros tr0 tr1 Htr. split; [exact Htr | reflexivity]. Qed.

Lemma sim_bind {A B} (m0 m1 : M A) (k0 k1 : A -> M B) :
  sim lib m0 m1 -> (forall a, sim lib (k0 a) (k1 a)) -> sim lib (bind m0 k0) (bind m1 k1).
Proof.
  intros Hm Hk tr0 tr1 Htr. unfold bind. destruct (Hm tr0 tr1 Htr) as [Ht Ho].
  destruct (m0 tr0) as [t0 o0], (m1 tr1) as [t1 o1]. cbn in Ht, Ho. subst o1.
  destruct o0 as [a|e|]; [apply Hk; exact Ht | cbn; auto | cbn; auto].
Qed.

Lemma sim_calls (stmts : list string) : sim lib (calls lib stmts) (calls lib stmts).
Proof.
  unfold calls. induction stmts as [|s stmts IH]; cbn [fold_right];
    [apply sim_ret | apply sim_bind; [apply sim_call_same | intros _; exact IH]].
Qed.

(** The Qt script, run on two command lines that differ only in the
    flags. *)
Lemma qt_sim (p : string) (a b : list string) :
  strip_flags a = strip_flags b ->
  sim lib (qt_3d_windows lib (mkEnv p a)) (qt_3d_windows lib (mkEnv p b)).
Proof.
  intros Hab. unfold qt_3d_windows, qt_imports, setupUi, gui.
  apply sim_bind; [apply sim_calls | intros _].
  apply sim_bind; [apply sim_call; right; exists a, b; auto | intros _].
  apply sim_bind; [apply sim_call_same | intros _].
  apply sim_bind; [apply sim_calls | intros _].
  apply sim_bind; [apply sim_bind; [apply sim_call_same | intros _; apply sim_emit] | intros _].
  apply sim_bind; [apply sim_call_same | intros _].
  apply sim_exit.
Qed.

End Sim.
End QtArgs.


(* ------------------------------------------------------------------ *)
(** ** [maya_gallery/compute_field.py], [B_field] lines 53-62 and 96-97:
    the change of frame to the coil and back *)

Module CoilFrame.
Import Coil.
Open Scope R_scope.

(** A 3x3 array by its rows. *)
Record M3 := mkM3 { row0 : V3; row1 : V3; row2 : V3 }.

(** [np.vstack((l, m, n))] *)
Definition vstack (a b c : V3) : M3 := mkM3 a b c.

Definition col0 (A : M3) : V3 := mkV3 (c0 (row0 A)) (c0 (row1 A)) (c0 (row2 A)).
Definition col1 (A : M3) : V3 := mkV3 (c1 (row0 A)) (c1 (row1 A)) (c1 (row2 A)).
Definition col2 (A : M3) : V3 := mkV3 (c2 (row0 A)) (c2 (row1 A)) (c2 (row2 A)).

(** [A.T] *)
Definition transpose (A : M3) : M3 := mkM3 (col0 A) (col1 A) (col2 A).

(** [np.dot(v, A)] for one row [v] of [r] or of [B]. *)
Definition vecmat (v : V3) (A : M3) : V3 :=
  mkV3 (dot v (col0 A)) (dot v (col1 A)) (dot v (col2 A)).

(** [np.dot(A, B)] for two 3x3 arrays. *)
Definition matmul (A B : M3) : M3 :=
  mkM3 (vecmat (row0 A) B) (vecmat (row1 A) B) (vecmat (row2 A) B).

Definition I3 : M3 := mkM3 (mkV3 1 0 0) (mkV3 0 1 0) (mkV3 0 0 1).

(** [r - r0] at one point. *)
Definition vsub (a b : V3) : V3 := mkV3 (c0 a - c0 b) (c1 a - c1 b) (c2 a - c2 b).

(** [n, l, m = base_vectors(n)] then [trans = np.vstack((l, m, n))]. *)
Definition trans_of (n : V3) : M3 :=
  let '(n, l, m) := base_vectors n in vstack l m n.

(** [r = r - r0] then [r = np.dot(r, inv_trans)], at one point. *)
Definition to_coil_frame (inv_trans : M3) (r r0 : V3) : V3 :=
  vecmat (vsub r r0) inv_trans.

(** [B = np.dot(B, trans)], at one point. *)
Definition to_lab_frame (trans : M3) (b : V3) : V3 := vecmat b trans.

End CoilFrame.

(* ------------------------------------------------------------------ *)
(** ** [Beys_Gallery/pyfin_alt_risk.py], lines 148-155: the expected-
    shortfall frontier, a sweep over [Alpha] and [Target_Return] *)

Module EsSweep.
Open Scope Q_scope.

(** [V_Alpha = np.array([0.05, 0.10, 0.25, 0.50])], as exact rationals. *)
Definition V_Alpha : list Q := [5 # 100; 10 # 100; 25 # 100; 50 # 100].

(** Python's [a[i, j] = v] on a 2-d array: [None] is the [IndexError]. *)
Fixpoint mat_set (m : list (list Q)) (i j : nat) (v : Q) : option (list (list Q)) :=
  match m, i with
  | [], _ => None
  | r :: t, O => option_map (fun r' => r' :: t) (MadSweep.list_set r j v)
  | r :: t, S i' => option_map (cons r) (mat_set t i' j v)
  end.

(** The values of the parameters [Alpha] and [Target_Return], the array
    [V_Risk] (a list of rows), and the [(Alpha, Target_Return)] values at
    which [Opt_Portfolio.solve] was called, in order. *)
Record St := mkSt {
  alpha : option Q; target : option Q;
  v_risk : list (list Q); solver_log : list (Q * Q) }.

Inductive Res :=
| Ok (st : St)
| Raise (e : string) (st : St).

Section Sweep.
(** The ECOS solve followed by [Risk_ES.value]: the optimal expected
    shortfall for the current values of [Alpha] and [Target_Return]. *)
Variable risk_es : Q -> Q -> Q.

(** [Alpha.value = v] for [cvx.Parameter(nonneg=True)]. *)
Definition set_alpha (v : Q) (st : St) : Res :=
  if Qle_bool 0 v then Ok (mkSt (Some v) (target st) (v_risk st) (solver_log st))
  else Raise "Parameter value must be nonnegative." st.

(** [Target_Return.value = v] for [cvx.Parameter(nonneg=True)]. *)
Definition set_target (v : Q) (st : St) : Res :=
  if Qle_bool 0 v then Ok (mkSt (alpha st) (Some v) (v_risk st) (solver_log st))
  else Raise "Parameter value must be nonnegative." st.

(** [Opt_Portfolio.solve(solver=cvx.ECOS)] then [Risk_ES.value]. *)
Definition solve (st : St) : option Q * St :=
  match alpha st, target st with
  | Some a, Some t =>
      (Some (risk_es a t), mkSt (alpha st) (target st) (v_risk st) (solver_log st ++ [(a, t)]))
  | _, _ => (None, st)
  end.

(** [for idx_row, Target_Return.value in enumerate(V_Target): ...] *)
Fixpoint inner_loop (idx_col idx_row : nat) (vs : list Q) (st : St) : Res :=
  match vs with
  | [] => Ok st
  | v :: vs' =>
      match set_target v st with
      | Raise e st1 => Raise e st1
      | Ok st1 =>
          match solve st1 with
          | (Some r, st2) =>
              match mat_set (v_risk st2) idx_row idx_col r with
              | Some vr =>
                  inner_loop idx_col (S idx_row) vs'
                    (mkSt (alpha st2) (target st2) vr (solver_log st2))
              | None => Raise "IndexError" st2
              end
          | (None, st2) => Raise "Parameter value is None" st2
          end
      end
  end.

(** [for idx_col, Alpha.value in enumerate(V_Alpha):
       Alpha.value = V_Alpha[idx_col]; for idx_row, ...] *)
Fixpoint outer_loop (idx_col : nat) (alphas vt : list Q) (st : St) : Res :=
  match alphas with
  | [] => Ok st
  | a :: alphas' =>
      match set_alpha a st with
      | Raise e st1 => Raise e st1
      | Ok st1 =>
          match nth_error V_Alpha idx_col with
          | None => Raise "IndexError" st1
          | Some a' =>
              match set_alpha a' st1 with
              | Raise e st2 => Raise e st2
              | Ok st2 =>
                  match inner_loop idx_col 0 vt st2 with
                  | Raise e st3 => Raise e st3
                  | Ok st3 => outer_loop (S idx_col) alphas' vt st3
                  end
              end
          end
      end
  end.

(** Lines 149-155, from the state left by the problem set-up of lines
    134-144: [Alpha] and [Target_Return] have no value yet. *)
Definition es_frontier (mu_min mu_max : Q) : Res :=
  let vt := MadSweep.linspace mu_min mu_max 250 in
  outer_loop 0 V_Alpha vt
    (mkSt None None (repeat (repeat 0 (length V_Alpha)) (length vt)) []).

End Sweep.
End EsSweep.

(* ------------------------------------------------------------------ *)
(** ** [Beys_Gallery/pyfin_alt_risk.py], lines 189-202: the closed-form
    portfolios and the risk-parity equations *)

Module Portfolio.
Open Scope R_scope.

(** 1-d arrays are lists of reals, 2-d arrays lists of rows. *)

(** [v.sum()] *)
Definition vsum (v : list R) : R := fold_right Rplus 0 v.

(** [u @ v] for two 1-d arrays. *)
Definition dotl (u v : list R) : R := vsum (map (fun '(a, b) => a * b) (combine u v)).

(** [u + v] elementwise. *)
Definition vadd (u v : list R) : list R := map (fun '(a, b) => a + b) (combine u v).

(** [A @ v] *)
Definition matvec (A : list (list R)) (v : list R) : list R := map (fun row => dotl row v) A.

(** [v @ A]: the rows of [A] weighted by the entries of [v] and summed. *)
Definition vecmat (v : list R) (A : list (list R)) : list R :=
  fold_right (fun '(vi, row) acc => vadd (map (Rmult vi) row) acc)
             (repeat 0 (length (hd [] A))) (combine v A).

(** [v / d] for a scalar [d]. *)
Definition vdivs (v : list R) (d : R) : list R := map (fun x => x / d) v.

(** [iota = np.ones(Mu.shape)] *)
Definition iota (Mu : list R) : list R := repeat 1 (length Mu).

(** [Weight_1N = np.tile(1.0/Mu.shape[0], Mu.shape[0])] *)
Definition Weight_1N (Mu : list R) : list R := repeat (1 / INR (length Mu)) (length Mu).

(** [Weight_MV = inv_Sigma @ iota / (iota @ inv_Sigma @ iota)] *)
Definition Weight_MV (Mu : list R) (inv_Sigma : list (list R)) : list R :=
  vdivs (matvec inv_Sigma (iota Mu)) (dotl (vecmat (iota Mu) inv_Sigma) (iota Mu)).

(** [Weight_MD = inv_Sigma @ Stdev / (iota @ inv_Sigma @ Stdev)] *)
Definition Weight_MD (Mu Stdev : list R) (inv_Sigma : list (list R)) : list R :=
  vdivs (matvec inv_Sigma Stdev) (dotl (vecmat (iota Mu) inv_Sigma) Stdev).

(** [v[:-1]] and [v[-1]] *)
Definition init (v : list R) : list R := removelast v.
Definition lastv (v : list R) : R := last v 0.

(** [F = lambda v, Sigma: np.hstack((Sigma @ v[:-1] - v[-1]/v[:-1],
    v[:-1].sum() - 1.0))]; a division by zero gives an infinity or a NaN,
    [None]. *)
Definition F (v : list R) (Sigma : list (list R)) : list Coil.num :=
  map (fun '(s, wi) => Coil.nadd (Some s) (Coil.nneg (Coil.ndiv (Some (lastv v)) wi)))
      (combine (matvec Sigma (init v)) (init v))
  ++ [Some (vsum (init v) - 1)].

(** A square 2-d array of size [n]. *)
Definition square (A : list (list R)) (n : nat) : Prop :=
  length A = n /\ Forall (fun row => length row = n) A.

End Portfolio.

(* ------------------------------------------------------------------ *)
(** ** [meep_gallery/polarization_grating.py], [pol_grating] lines 41-71:
    the layout of the cell along x *)

Module GratingLayout.
Import Grating.
Open Scope R_scope.

(** The x-extent of [mp.Block(center=c, size=s)]. *)
Definition lo (c s : R) : R := c - s / 2.
Definition hi (c s : R) : R := c + s / 2.

(** The substrate block and the liquid-crystal block of [geometry]. *)
Definition sub_center (d : R) : R := -0.5 * sx d + 0.5 * (dpml + dsub).
Definition sub_size : R := dpml + dsub.
Definition lc_center (d : R) : R := -0.5 * sx d + dpml + dsub + d.
Definition lc_size (d : R) : R := 2 * d.

(** [src_pt] and [tran_pt] *)
Definition src_x (d : R) : R := -0.5 * sx d + dpml + 0.3 * dsub.
Definition tran_x (d : R) : R := 0.5 * sx d - dpml - 0.5 * dpad.

End GratingLayout.

(* ------------------------------------------------------------------ *)
(** ** [meep_gallery/solve-cw.py], lines 112-115: the convergence check *)

Module SolveCw.
Open Scope R_scope.

(** [np.diff(a)]: [a[i+1] - a[i]] *)
Definition diff (a : list R) : list R := map (fun '(x, y) => y - x) (combine a (tl a)).

(** [np.all(a < 0)] *)
Definition all_neg (a : list R) : bool :=
  forallb (fun x => if Rlt_dec x 0 then true else false) a.

Definition passed_msg : string :=
  "PASSED solve_cw test: error in the fields is decreasing with increasing resolution".
Definition failed_msg : string :=
  "FAILED solve_cw test: error in the fields is NOT decreasing with increasing resolution".

(** The message printed for [err_dat]. *)
Definition verdict (err_dat : list R) : string :=
  if all_neg (diff err_dat) then passed_msg else failed_msg.

End SolveCw.

(* ------------------------------------------------------------------ *)
(** ** [meep_gallery/cylinder_cross_section.py], lines 27-82: frequencies
    and layout of the cylindrical cell, for a cylinder of radius [r] and
    height [h] *)

Module CylCross.
Open Scope R_scope.

Section Cell.
Variables r h : R.

Definition wvl_min : R := 2 * PI * r / 10.
Definition wvl_max : R := 2 * PI * r / 2.
Definition frq_min : R := 1 / wvl_max.
Definition frq_max : R := 1 / wvl_min.
Definition frq_cen : R := 0.5 * (frq_min + frq_max).
Definition dfrq : R := frq_max - frq_min.

Definition dpml : R := 0.5 * wvl_max.
Definition dair : R := 1.0 * wvl_max.
Definition sr : R := r + dair + dpml.
Definition sz : R := dpml + dair + h + dair + dpml.

(** The z of the source plane [center=mp.Vector3(0.5*sr,0,-0.5*sz+dpml)]. *)
Definition src_z : R := -0.5 * sz + dpml.

(** The flux planes: [box_z1] and [box_z2] at [z = -0.5*h] and [+0.5*h],
    radial extent [0.5*r -/+ 0.5*r]; [box_r] at radius [r], z extent
    [0 -/+ 0.5*h]. *)
Definition box_z1_z : R := -0.5 * h.
Definition box_z2_z : R := 0.5 * h.
Definition box_z_rlo : R := 0.5 * r - r / 2.
Definition box_z_rhi : R := 0.5 * r + r / 2.
Definition box_r_r : R := r.
Definition box_r_zlo : R := 0 - h / 2.
Definition box_r_zhi : R := 0 + h / 2.

(** The cylinder [mp.Block(center=mp.Vector3(0.5*r), size=mp.Vector3(r,0,h))]. *)
Definition cyl_rlo : R := 0.5 * r - r / 2.
Definition cyl_rhi : R := 0.5 * r + r / 2.
Definition cyl_zlo : R := 0 - h / 2.
Definition cyl_zhi : R := 0 + h / 2.

End Cell.
End CylCross.

(* ------------------------------------------------------------------ *)
(** ** Auxiliary views of the [V_Risk] matrix of the expected-shortfall
    sweep, used to state its invariant *)

Module EsSweepAux.
Import EsSweep.
Local Open Scope Q_scope.
Local Open Scope list_scope.

(** Column [j] of the rows replaced by [col]. *)
Definition upd_col (rows : list (list Q)) (j : nat) (col : list Q) : list (list Q) :=
  map (fun '(r, c) => firstn j r ++ c :: skipn (S j) r) (combine rows col).

(** Row [t] of [V_Risk] once the first [k] alphas are done. *)
Definition row_after (risk_es : Q -> Q -> Q) (k : nat) (t : Q) : list Q :=
  map (fun a => risk_es a t) (firstn k V_Alpha) ++ repeat 0 (4 - k).

End EsSweepAux.

(* ================================================================== *)
(** * The claims *)

Import Repo RepoProps.
Local Open Scope list_scope.

(** C1 (amended).  Run to completion, the portfolio, multihole and the three
    meep scripts each draw at least one figure; [compute_field.py] (which
    stops after summing [B]), [qt_3d_windows.py] (which shows a Qt window)
    and the sfepy problem file never draw one. *)
Theorem plots_of_scripts :
  forall (env : Env) (lib : Oracle) (test : list Event -> string -> bool),
  (forall s, In s [S_pyfin_alt_risk; S_multihole; S_polarization_grating; S_solve_cw;
                   S_cylinder_cross_section] ->
     snd (run lib test s env) = Done tt -> has_plot (fst (run lib test s env)) = true) /\
  (forall s, In s [S_compute_field; S_qt_3d_windows; S_poisson_periodic_boundary_condition] ->
     has_plot (fst (run lib test s env)) = false).
Proof.
  intros env lib test. split.
  - intros s Hs Hd. destruct (run lib test s env) as [tr o] eqn:E. simpl in Hd |- *. subst o.
    simpl in Hs.
    destruct Hs as [<-|[<-|[<-|[<-|[<-|[]]]]]]; unfold_scripts_in E; peel_to_plot E.
  - intros s Hs. apply no_plot_script; [|reflexivity].
    simpl in Hs. destruct Hs as [<-|[<-|[<-|[]]]]; auto.
Qed.

(** C1 counterexample: [compute_field.py] runs to completion without drawing
    any figure. *)
Lemma compute_field_draws_no_figure :
  ~ (forall s env lib test,
       snd (run lib test s env) = Done tt -> has_plot (fst (run lib test s env)) = true).
Proof.
  intros H. specialize (H S_compute_field (mkEnv "linux" []) lib_ok (fun _ _ => false)).
  vm_compute in H. discriminate (H eq_refl).
Qed.

Lemma list_in_iff (x : string) (argv0 : list string) :
  Multihole.list_in x argv0 = true <-> In x argv0.
Proof.
  unfold Multihole.list_in. rewrite existsb_exists. split.
  - intros (y & Hy & Heq). apply String.eqb_eq in Heq. subst y. exact Hy.
  - intros H. exists x. split; [exact H | apply String.eqb_refl].
Qed.

(** C2.  On [sys.platform], a prefix [win], [darwin] or [linux] (tested in
    this order) selects the matching hard-coded font path and the script
    goes on; any other platform prints the message and exits right after
    the imports, before the data is read.  No other path of any script ends
    the process early: the only other [sys.exit] is the Qt script's last
    line, after [app.exec_()] has returned. *)
Theorem font_path_selection :
  forall platform0 : string,
  (PyfinFont.startswith platform0 "win" = true ->
     PyfinFont.select_font platform0 = PyfinFont.SetFontPath PyfinFont.win_font) /\
  (PyfinFont.startswith platform0 "win" = false ->
   PyfinFont.startswith platform0 "darwin" = true ->
     PyfinFont.select_font platform0 = PyfinFont.SetFontPath PyfinFont.darwin_font) /\
  (PyfinFont.startswith platform0 "win" = false ->
   PyfinFont.startswith platform0 "darwin" = false ->
   PyfinFont.startswith platform0 "linux" = true ->
     PyfinFont.select_font platform0 = PyfinFont.SetFontPath PyfinFont.linux_font) /\
  (forall p lib test argv0,
     PyfinFont.select_font platform0 = PyfinFont.SetFontPath p ->
     run lib test S_pyfin_alt_risk (mkEnv platform0 argv0) =
     bind (pyfin_imports lib) (fun _ => pyfin_rest lib) []) /\
  (PyfinFont.startswith platform0 "win" = false ->
   PyfinFont.startswith platform0 "darwin" = false ->
   PyfinFont.startswith platform0 "linux" = false ->
     PyfinFont.select_font platform0 = PyfinFont.PrintAndExit PyfinFont.unsupported_msg /\
     forall lib test argv0,
       run lib test S_pyfin_alt_risk (mkEnv platform0 argv0) =
       match pyfin_imports lib [] with
       | (tr1, Done _) => (tr1 ++ [EPrint PyfinFont.unsupported_msg], Exited)
       | (tr1, Raised e) => (tr1, Raised e)
       | (tr1, Exited) => (tr1, Exited)
       end) /\
  (forall s env lib test tr,
     run lib test s env = (tr, Exited) ->
     (s = S_pyfin_alt_risk /\
        exists msg, PyfinFont.select_font (platform env) = PyfinFont.PrintAndExit msg) \/
     (s = S_qt_3d_windows /\ exists pre, tr = pre ++ [ECall "app.exec_()" None])).
Proof.
  intros platform0.
  split; [|split; [|split; [|split; [|split]]]].
  - unfold PyfinFont.select_font. intros Hw. rewrite Hw. reflexivity.
  - unfold PyfinFont.select_font. intros Hw Hd. rewrite Hw, Hd. reflexivity.
  - unfold PyfinFont.select_font. intros Hw Hd Hl. rewrite Hw, Hd, Hl. reflexivity.
  - intros p lib test argv0 Hp. unfold run, script, pyfin_alt_risk, pyfin_font_cell.
    cbn [platform]. rewrite Hp. reflexivity.
  - intros Hw Hd Hl.
    assert (Hsel : PyfinFont.select_font platform0 =
                   PyfinFont.PrintAndExit PyfinFont.unsupported_msg).
    { unfold PyfinFont.select_font. rewrite Hw, Hd, Hl. reflexivity. }
    split; [exact Hsel|].
    intros lib test argv0.
    unfold run, script, pyfin_alt_risk, pyfin_font_cell.
    cbn [platform]. rewrite Hsel. unfold bind at 1.
    destruct (pyfin_imports lib []) as [tr1 [a|e|]]; reflexivity.
  - intros s env lib test tr H. exact (exit_paths lib test s env tr H).
Qed.

(** C3.  [show_gui] is [False] exactly when ["-nogui"] is in [sys.argv] and
    [eshape] is ["tri"] exactly when ["-tri"] is.  The flags affect no other
    script: the runs of the scripts other than [multihole.py] and
    [qt_3d_windows.py] do not depend on the argument vector at all; the Qt
    script hands [sys.argv] to [QApplication], and as long as the libraries
    ignore the two flags (they are not Qt options), adding or removing them
    leaves its outcome unchanged and its trace the same up to the recorded
    [sys.argv]. *)
Theorem multihole_flags :
  forall argv0 : list string,
  (Multihole.show_gui argv0 = false <-> In "-nogui" argv0) /\
  (Multihole.show_gui argv0 = true <-> ~ In "-nogui" argv0) /\
  (Multihole.eshape argv0 = "tri" <-> In "-tri" argv0) /\
  (Multihole.eshape argv0 = "quad" <-> ~ In "-tri" argv0) /\
  (forall s p argv1 lib test, s <> S_multihole -> s <> S_qt_3d_windows ->
     run lib test s (mkEnv p argv0) = run lib test s (mkEnv p argv1)) /\
  (forall p argv1 lib test,
     QtArgs.strip_flags argv0 = QtArgs.strip_flags argv1 -> QtArgs.lib_ignores_flags lib ->
     QtArgs.trace_rel (fst (run lib test S_qt_3d_windows (mkEnv p argv0)))
                      (fst (run lib test S_qt_3d_windows (mkEnv p argv1))) /\
     snd (run lib test S_qt_3d_windows (mkEnv p argv0)) =
     snd (run lib test S_qt_3d_windows (mkEnv p argv1))).
Proof.
  intros argv0. unfold Multihole.show_gui, Multihole.eshape.
  pose proof (list_in_iff "-nogui" argv0) as Hg.
  pose proof (list_in_iff "-tri" argv0) as Ht.
  repeat split.
  - destruct (Multihole.list_in "-nogui" argv0); intros H; [apply Hg; reflexivity | discriminate].
  - intros H. apply Hg in H. rewrite H. reflexivity.
  - destruct (Multihole.list_in "-nogui" argv0); intros H; [discriminate|].
    intros Hin. apply Hg in Hin. discriminate.
  - intros H. destruct (Multihole.list_in "-nogui" argv0) eqn:E; [|reflexivity].
    exfalso. apply H, Hg. reflexivity.
  - destruct (Multihole.list_in "-tri" argv0); intros H; [apply Ht; reflexivity | discriminate].
  - intros H. apply Ht in H. rewrite H. reflexivity.
  - destruct (Multihole.list_in "-tri" argv0); intros H; [discriminate|].
    intros Hin. apply Ht in Hin. discriminate.
  - intros H. destruct (Multihole.list_in "-tri" argv0) eqn:E; [|reflexivity].
    exfalso. apply H, Ht. reflexivity.
  - intros s p argv1 lib test Hs Hq. destruct s; try congruence; reflexivity.
  - unfold run, script. apply (QtArgs.qt_sim lib H0 p argv0 argv1 H). constructor.
  - unfold run, script. apply (QtArgs.qt_sim lib H0 p argv0 argv1 H). constructor.
Qed.

Lemma multihole_flags_witness :
  QtArgs.lib_ignores_flags (fun _ _ => None) /\
  (QtArgs.trace_rel
     (fst (run (fun _ _ => None) (fun _ _ => false) S_qt_3d_windows (mkEnv "linux" ["qt"; "-nogui"])))
     (fst (run (fun _ _ => None) (fun _ _ => false) S_qt_3d_windows (mkEnv "linux" ["qt"]))) /\
   snd (run (fun _ _ => None) (fun _ _ => false) S_qt_3d_windows (mkEnv "linux" ["qt"; "-nogui"])) =
   snd (run (fun _ _ => None) (fun _ _ => false) S_qt_3d_windows (mkEnv "linux" ["qt"]))).
Proof.
  assert (H : QtArgs.lib_ignores_flags (fun _ _ => None)) by (intros tr tr' s s' _ _; reflexivity).
  split; [exact H|].
  destruct (multihole_flags ["qt"; "-nogui"]) as (_ & _ & _ & _ & _ & Hq).
  exact (Hq "linux" ["qt"] (fun _ _ => None) (fun _ _ => false) eq_refl H).
Defined.

(** C5.  No script catches an exception: a call that raises is the last
    event of the run and its exception is the run's outcome; a run that
    raises does so at a library call; and the only [SystemExit]s are the
    font-path exit of the portfolio script and the Qt script's final
    [sys.exit(app.exec_())]. *)
Theorem library_errors_uncaught :
  forall (s : Script) (env : Env) (lib : Oracle) (test : list Event -> string -> bool),
  let (tr, o) := run lib test s env in
  (forall pre c e rest, tr = pre ++ ECall c (Some e) :: rest -> rest = [] /\ o = Raised e) /\
  (forall e, o = Raised e -> exists pre c, tr = pre ++ [ECall c (Some e)]) /\
  (o = Exited ->
     (s = S_pyfin_alt_risk /\
        exists msg, PyfinFont.select_font (platform env) = PyfinFont.PrintAndExit msg) \/
     (s = S_qt_3d_windows /\ exists pre, tr = pre ++ [ECall "app.exec_()" None])).
Proof.
  intros s env lib test.
  pose proof (safe_script lib test s env [] ltac:(intros c e [])) as Hs.
  pose proof (exit_paths lib test s env) as Hx.
  unfold run. destruct (script lib test s env []) as [tr o] eqn:E.
  cbn in Hs. split; [|split].
  - intros pre0 c0 e0 rest0 Heq. subst tr.
    destruct o as [a|e|].
    + exfalso. apply (Hs c0 e0). apply in_or_app. right. left. reflexivity.
    + destruct Hs as (pre & c & Heq & Hnf).
      apply app_cons_eq_snoc in Heq as [[-> Heq]|Hin].
      * injection Heq as -> ->. auto.
      * exfalso. exact (Hnf c0 e0 Hin).
    + exfalso. apply (Hs c0 e0). apply in_or_app. right. left. reflexivity.
  - intros e He. subst o. destruct Hs as (pre & c & Heq & _). eauto.
  - intros Ho. subst o. apply Hx. reflexivity.
Qed.

Module MadSweepFacts.
Import MadSweep.
Local Open Scope Q_scope.

Lemma linspace_length (a b : Q) (n : nat) : length (linspace a b n) = n.
Proof. unfold linspace. rewrite length_map, length_seq. reflexivity. Qed.

Lemma nth_map_seq {A} (f : nat -> A) (n i : nat) (d : A) :
  (i < n)%nat -> nth i (map f (seq 0 n)) d = f i.
Proof.
  intros Hi. rewrite (nth_indep _ d (f 0%nat)) by (rewrite length_map, length_seq; exact Hi).
  rewrite map_nth, seq_nth by exact Hi. reflexivity.
Qed.

Lemma linspace_nth (a b : Q) (n i : nat) :
  (i < n)%nat ->
  nth i (linspace a b n) 0 =
  (if (Nat.eqb i (n - 1) && Nat.ltb 1 n)%bool then b
   else inject_Z (Z.of_nat i) * ((b - a) / inject_Z (Z.of_nat n - 1)) + a).
Proof.
  intros Hi. unfold linspace. apply nth_map_seq. exact Hi.
Qed.

Lemma Qnonneg_plus (a b : Q) : 0 <= a -> 0 <= b -> 0 <= a + b.
Proof. intros Ha Hb. exact (Qplus_le_compat 0 a 0 b Ha Hb). Qed.

Lemma Qnonneg_inject_nat (i : nat) : 0 <= inject_Z (Z.of_nat i).
Proof. unfold Qle. simpl. lia. Qed.

Lemma linspace_nonneg (a b : Q) (n : nat) :
  0 <= a -> a <= b -> Forall (fun v => 0 <= v) (linspace a b n).
Proof.
  intros Ha Hab. unfold linspace. apply Forall_map, Forall_forall. intros i Hin. apply in_seq in Hin.
  destruct (Nat.eqb i (n - 1) && Nat.ltb 1 n)%bool.
  - exact (Qle_trans _ _ _ Ha Hab).
  - apply Qnonneg_plus; [|exact Ha].
    apply Qmult_le_0_compat; [apply Qnonneg_inject_nat|].
    apply Qmult_le_0_compat.
    + apply Qle_minus_iff in Hab. exact Hab.
    + apply Qinv_le_0_compat. unfold Qle. simpl. lia.
Qed.

Lemma list_set_in_range (l : list Q) (i : nat) (v : Q) :
  (i < length l)%nat -> list_set l i v = Some (firstn i l ++ v :: skipn (S i) l).
Proof.
  revert i. induction l as [|h t IH]; intros i Hi; simpl in Hi; [lia|].
  destruct i as [|j]; simpl; [reflexivity|].
  rewrite IH by lia. reflexivity.
Qed.

Section Loop.
Variable risk_of : Q -> Q.

Lemma sweep_loop_ok (vs : list Q) :
  forall idx st,
  Forall (fun v => 0 <= v) vs ->
  length (v_risk st) = (idx + length vs)%nat ->
  exists t, sweep_loop risk_of idx vs st =
            Ok (mkSt t (firstn idx (v_risk st) ++ map risk_of vs) (solver_log st ++ vs)).
Proof.
  induction vs as [|v vs IH]; intros idx st Hnn Hlen.
  - exists (target st). simpl. rewrite !app_nil_r.
    simpl in Hlen. rewrite Nat.add_0_r in Hlen. rewrite <- Hlen, firstn_all.
    destruct st; reflexivity.
  - inversion Hnn as [|? ? Hv Hvs]; subst.
    simpl. unfold set_target. apply Qle_bool_iff in Hv. rewrite Hv. simpl.
    rewrite list_set_in_range by (simpl in Hlen; lia).
    destruct (IH (S idx) (mkSt (Some v) (firstn idx (v_risk st) ++ risk_of v :: skipn (S idx) (v_risk st))
                               (solver_log st ++ [v]))) as [t Ht]; [exact Hvs| |].
    + cbn [v_risk]. rewrite length_app. cbn [length]. rewrite length_firstn, length_skipn. simpl in Hlen. lia.
    + exists t. rewrite Ht. cbn [v_risk solver_log map].
      assert (Hf : firstn (S idx) (firstn idx (v_risk st) ++ risk_of v :: skipn (S idx) (v_risk st))
                   = firstn idx (v_risk st) ++ [risk_of v]).
      { simpl in Hlen. rewrite firstn_app, length_firstn, firstn_firstn.
        replace (Init.Nat.min (S idx) idx) with idx by lia.
        replace (Init.Nat.min idx (length (v_risk st))) with idx by lia.
        replace (S idx - idx)%nat with 1%nat by lia. reflexivity. }
      rewrite Hf, <- !app_assoc. reflexivity.
Qed.

End Loop.
End MadSweepFacts.



(* ------------------------------------------------------------------ *)
(** ** Facts on the coil frame and the guarded field components *)

Module CoilFacts.
Import Coil.
Open Scope R_scope.

Lemma sumsq_nonneg (v : V3) : 0 <= sumsq v.
Proof. unfold sumsq. nra. Qed.

Lemma sumsq_zero (v : V3) : sumsq v = 0 -> v = mkV3 0 0 0.
Proof.
  destruct v as [a b c]. unfold sumsq. cbn. intros H.
  assert (a = 0) by nra. assert (b = 0) by nra. assert (c = 0) by nra.
  subst. reflexivity.
Qed.

Lemma sumsq_vdiv (v : V3) (s : R) : s <> 0 -> sumsq (vdiv v s) = sumsq v / (s * s).
Proof. intros Hs. unfold sumsq, vdiv. cbn. field. exact Hs. Qed.

Lemma sumsq_normalize (v : V3) : sumsq v <> 0 -> sumsq (vdiv v (sqrt (sumsq v))) = 1.
Proof.
  intros Hv. pose proof (sumsq_nonneg v) as H0.
  assert (Hpos : 0 < sumsq v) by lra.
  assert (Hs : sqrt (sumsq v) <> 0) by (apply Rgt_not_eq, sqrt_lt_R0; exact Hpos).
  rewrite sumsq_vdiv by exact Hs. rewrite sqrt_sqrt by exact H0.
  field. exact Hv.
Qed.

Lemma dot_vdiv (a b : V3) (s : R) : dot a (vdiv b s) = dot a b / s.
Proof. unfold dot, vdiv, Rdiv. cbn. ring. Qed.

Lemma dot_sym (a b : V3) : dot a b = dot b a.
Proof. unfold dot. ring. Qed.

Lemma dot_cross_l (a b : V3) : dot a (cross a b) = 0.
Proof. unfold dot, cross. cbn. ring. Qed.

Lemma dot_cross_r (a b : V3) : dot b (cross a b) = 0.
Proof. unfold dot, cross. cbn. ring. Qed.

(** Lagrange's identity. *)
Lemma sumsq_cross (a b : V3) : sumsq (cross a b) = sumsq a * sumsq b - dot a b * dot a b.
Proof. unfold sumsq, dot, cross. cbn. ring. Qed.

Lemma Rabs_one_of_sq (a : R) : a * a = 1 -> Rabs a = 1.
Proof.
  intros H. assert (Ha : a = 1 \/ a = -1) by (assert ((a - 1) * (a + 1) = 0) by lra;
    destruct (Rmult_integral _ _ H0); [left | right]; lra).
  destruct Ha as [-> | ->]; [apply Rabs_R1 | rewrite Rabs_left; lra].
Qed.

(** The perpendicular vector chosen by [base_vectors] for a unit [n]. *)
Definition perp (n : V3) : V3 :=
  if Req_EM_T (Rabs (c0 n)) 1 then mkV3 (c2 n) 0 (- c0 n) else mkV3 0 (c2 n) (- c1 n).

Lemma perp_dot (n : V3) : dot n (perp n) = 0.
Proof. unfold perp, dot. destruct (Req_EM_T _ _); cbn; ring. Qed.

Lemma perp_nonzero (n : V3) : sumsq n = 1 -> sumsq (perp n) <> 0.
Proof.
  intros Hn. unfold perp. destruct n as [a b c]. unfold sumsq in *. cbn in *.
  destruct (Req_EM_T (Rabs a) 1) as [Ha | Ha]; cbn.
  - assert (a * a = 1).
    { destruct (Rcase_abs a) as [Hl | Hl];
        [rewrite Rabs_left in Ha by exact Hl | rewrite Rabs_right in Ha by exact Hl];
        nra. }
    nra.
  - intros H0. apply Ha, Rabs_one_of_sq. nra.
Qed.

Lemma base_vectors_eq (n : V3) :
  base_vectors n =
  (vdiv n (sqrt (sumsq n)),
   vdiv (perp (vdiv n (sqrt (sumsq n)))) (sqrt (sumsq (perp (vdiv n (sqrt (sumsq n)))))),
   cross (vdiv n (sqrt (sumsq n)))
     (vdiv (perp (vdiv n (sqrt (sumsq n)))) (sqrt (sumsq (perp (vdiv n (sqrt (sumsq n)))))))).
Proof. reflexivity. Qed.

End CoilFacts.

Local Open Scope R_scope.

(** C6.  For every nonzero 3-vector [n], [base_vectors n] returns
    [(n', l, m)]: three unit vectors, pairwise orthogonal, with [n'] equal to
    [n] scaled by a positive factor and [m = n' x l]. *)
Theorem base_vectors_orthonormal (n : Coil.V3) :
  n <> Coil.mkV3 0 0 0 ->
  let '(n', l, m) := Coil.base_vectors n in
  Coil.sumsq n' = 1 /\ Coil.sumsq l = 1 /\ Coil.sumsq m = 1 /\
  Coil.dot n' l = 0 /\ Coil.dot n' m = 0 /\ Coil.dot l m = 0 /\
  (exists c, 0 < c /\ n' = Coil.vscale c n) /\ m = Coil.cross n' l.
Proof.
  intros Hn. rewrite CoilFacts.base_vectors_eq.
  assert (Hs : Coil.sumsq n <> 0) by (intros H; apply Hn, CoilFacts.sumsq_zero, H).
  set (u := Coil.vdiv n (sqrt (Coil.sumsq n))).
  assert (Hu : Coil.sumsq u = 1) by apply CoilFacts.sumsq_normalize, Hs.
  set (l := Coil.vdiv (CoilFacts.perp u) (sqrt (Coil.sumsq (CoilFacts.perp u)))).
  assert (Hl : Coil.sumsq l = 1)
    by apply CoilFacts.sumsq_normalize, CoilFacts.perp_nonzero, Hu.
  assert (Hul : Coil.dot u l = 0).
  { unfold l. rewrite CoilFacts.dot_vdiv, CoilFacts.perp_dot. unfold Rdiv. ring. }
  split; [exact Hu|]. split; [exact Hl|]. split.
  { rewrite CoilFacts.sumsq_cross, Hu, Hl, Hul. ring. }
  split; [exact Hul|]. split; [apply CoilFacts.dot_cross_l|]. split; [apply CoilFacts.dot_cross_r|].
  split; [|reflexivity].
  pose proof (CoilFacts.sumsq_nonneg n) as H0.
  assert (Hpos : 0 < sqrt (Coil.sumsq n)) by (apply sqrt_lt_R0; lra).
  exists (/ sqrt (Coil.sumsq n)). split; [apply Rinv_0_lt_compat, Hpos|].
  unfold u, Coil.vdiv, Coil.vscale, Rdiv. f_equal; ring.
Qed.

Lemma base_vectors_orthonormal_witness :
  Coil.mkV3 0 0 2 <> Coil.mkV3 0 0 0 /\
  (let '(n', l, m) := Coil.base_vectors (Coil.mkV3 0 0 2) in
   Coil.sumsq n' = 1 /\ Coil.sumsq l = 1 /\ Coil.sumsq m = 1 /\
   Coil.dot n' l = 0 /\ Coil.dot n' m = 0 /\ Coil.dot l m = 0 /\
   (exists c, 0 < c /\ n' = Coil.vscale c (Coil.mkV3 0 0 2)) /\ m = Coil.cross n' l).
Proof.
  assert (H : Coil.mkV3 0 0 2 <> Coil.mkV3 0 0 0)
    by (intros H; injection H as H; lra).
  split; [exact H | apply (base_vectors_orthonormal (Coil.mkV3 0 0 2)); exact H].
Defined.

(** C7.  At the guarded points of [B_field] the division-by-zero values are
    overridden: [Brho = 0] where [rho = 0] or [dist = 0], [Bz = 0] where
    [dist = 0], and [theta = pi/2] where [y = 0].  At such a point all three
    returned components are defined numbers (given that [ellipe] and
    [ellipk] are defined at [0], the argument they receive on the axis). *)
Theorem B_field_guarded_points (ellipe ellipk : R -> Coil.num) (R0 x y z : R) :
  (Coil.rho x y = 0 \/ Coil.dist R0 x y z = 0 -> Coil.Brho ellipe ellipk R0 x y z = Some 0) /\
  (Coil.dist R0 x y z = 0 -> Coil.Bz ellipe ellipk R0 x y z = Some 0) /\
  (y = 0 -> Coil.theta x y = Some (PI / 2)) /\
  (forall l m n : Coil.V3,
     (exists e k, ellipe 0 = Some e /\ ellipk 0 = Some k) ->
     Coil.rho x y = 0 \/ Coil.dist R0 x y z = 0 ->
     let '(b0, b1, b2) := Coil.B_point ellipe ellipk l m n R0 x y z in
     b0 <> None /\ b1 <> None /\ b2 <> None).
Proof.
  assert (HBrho : Coil.rho x y = 0 \/ Coil.dist R0 x y z = 0 ->
                  Coil.Brho ellipe ellipk R0 x y z = Some 0).
  { intros Hg. unfold Coil.Brho.
    destruct (Req_EM_T (Coil.rho x y) 0); [reflexivity|].
    destruct (Req_EM_T (Coil.dist R0 x y z) 0); [reflexivity|].
    destruct Hg; contradiction. }
  assert (HBz : Coil.dist R0 x y z = 0 -> Coil.Bz ellipe ellipk R0 x y z = Some 0).
  { intros Hd. unfold Coil.Bz. destruct (Req_EM_T _ _); [reflexivity | contradiction]. }
  assert (Htheta : exists t, Coil.theta x y = Some t).
  { unfold Coil.theta, Coil.ndiv. destruct (Req_EM_T y 0); [eauto|].
    cbn. eauto. }
  split; [exact HBrho|]. split; [exact HBz|]. split.
  { intros ->. unfold Coil.theta. destruct (Req_EM_T 0 0); [reflexivity | contradiction]. }
  intros l m n [e [k [He Hk]]] Hg.
  destruct Htheta as [t Ht].
  unfold Coil.B_point. rewrite Ht, (HBrho Hg). cbn.
  assert (Hb2 : exists b, Coil.Bz ellipe ellipk R0 x y z = Some b).
  { destruct (Req_EM_T (Coil.dist R0 x y z) 0) as [Hd | Hd]; [eauto|].
    destruct Hg as [Hr | Hd']; [|contradiction].
    unfold Coil.Bz. destruct (Req_EM_T _ _) as [|_]; [contradiction|].
    assert (Hden : (R0 + Coil.rho x y) ^ 2 + z ^ 2 = Coil.dist R0 x y z)
      by (unfold Coil.dist; rewrite Hr; ring).
    unfold Coil.Bz_raw, Coil.ell_arg. rewrite Hden, Hr.
    assert (Harg : Coil.ndiv (Some (4 * R0 * 0)) (Coil.dist R0 x y z) = Some 0).
    { unfold Coil.ndiv. destruct (Req_EM_T _ _) as [|_]; [contradiction|].
      f_equal. unfold Rdiv. ring. }
    rewrite Harg, He, Hk.
    assert (Hsq : sqrt (Coil.dist R0 x y z) <> 0).
    { intros Hq. apply Hd. apply sqrt_eq_0; [|exact Hq].
      unfold Coil.dist. nra. }
    unfold Coil.ndiv. cbn.
    destruct (Req_EM_T (sqrt (Coil.dist R0 x y z)) 0) as [|_]; [contradiction|].
    destruct (Req_EM_T (Coil.dist R0 x y z) 0) as [|_]; [contradiction|].
    cbn. eauto. }
  destruct Hb2 as [b Hb]. rewrite Hb. cbn.
  repeat split; discriminate.
Qed.

(** C8.  For [d > 0] the two branch expressions of [phi] agree at the
    interface [xx = d] (both equal [pi*y/gp + ph]), and [phi] itself takes
    that value at every point [p] with [xx = d]. *)
Theorem phi_continuous_at_interface (d ph gp : R) :
  0 < d ->
  (forall y, Grating.phi_first gp ph d d y = Grating.phi_second gp ph d d y /\
             Grating.phi_first gp ph d d y = PI * y / gp + ph) /\
  (forall p : Grating.Vec3, Grating.xx_of d p = d ->
     Grating.phi d ph gp p = PI * Grating.vy p / gp + ph).
Proof.
  intros Hd.
  assert (Hbr : forall y, Grating.phi_first gp ph d d y = PI * y / gp + ph /\
                          Grating.phi_second gp ph d d y = PI * y / gp + ph).
  { intros y. unfold Grating.phi_first, Grating.phi_second.
    assert (Hdd : ph * d / d = ph) by (field; lra).
    rewrite Hdd. split; ring. }
  split.
  - intros y. destruct (Hbr y) as [H1 H2]. rewrite H1, H2. split; reflexivity.
  - intros p Hp. unfold Grating.phi. cbv zeta. rewrite Hp.
    destruct (Hbr (Grating.vy p)) as [H1 H2].
    destruct (Rle_dec 0 d); [destruct (Rle_dec d d)|]; assumption.
Qed.

Lemma phi_continuous_at_interface_witness :
  (0 < 1)%R /\
  (forall y, Grating.phi_first 1 1 1 1 y = Grating.phi_second 1 1 1 1 y /\
             Grating.phi_first 1 1 1 1 y = (PI * y / 1 + 1)%R) /\
  (forall p : Grating.Vec3, Grating.xx_of 1 p = 1%R ->
     Grating.phi 1 1 1 p = (PI * Grating.vy p / 1 + 1)%R).
Proof.
  split; [exact Rlt_0_1 | apply (phi_continuous_at_interface 1 1 1); exact Rlt_0_1].
Defined.

(* ================================================================== *)
(** * Further properties of the code *)

Module CoilFrameFacts.
Import Coil CoilFrame.
Local Open Scope R_scope.
Local Open Scope list_scope.

Ltac m3_destruct :=
  repeat match goal with
  | A : M3 |- _ => destruct A as [[? ? ?] [? ? ?] [? ? ?]]
  | v : V3 |- _ => destruct v as [? ? ?]
  end.

Lemma matmul_assoc (A B C : M3) : matmul (matmul A B) C = matmul A (matmul B C).
Proof. m3_destruct. unfold matmul, vecmat, dot, col0, col1, col2. cbn. f_equal; f_equal; ring. Qed.

Lemma matmul_I3_l (A : M3) : matmul I3 A = A.
Proof. m3_destruct. unfold matmul, vecmat, dot, col0, col1, col2, I3. cbn. f_equal; f_equal; ring. Qed.

Lemma vecmat_matmul (v : V3) (A B : M3) : vecmat (vecmat v A) B = vecmat v (matmul A B).
Proof. m3_destruct. unfold matmul, vecmat, dot, col0, col1, col2. cbn. f_equal; ring. Qed.

Lemma vecmat_I3 (v : V3) : vecmat v I3 = v.
Proof. m3_destruct. unfold vecmat, dot, col0, col1, col2, I3. cbn. f_equal; ring. Qed.

Lemma dot_vecmat (u w : V3) (A : M3) : dot (vecmat u A) w = dot u (vecmat w (transpose A)).
Proof. m3_destruct. unfold transpose, vecmat, dot, col0, col1, col2. cbn. ring. Qed.

Lemma sumsq_dot (v : V3) : sumsq v = dot v v.
Proof. unfold sumsq, dot. ring. Qed.

(** [l l^T + (n x l)(n x l)^T + n n^T = I] for orthonormal [n], [l]. *)
Lemma frame_orthogonal (u l : V3) :
  sumsq u = 1 -> sumsq l = 1 -> dot u l = 0 ->
  matmul (vstack l (cross u l) u) (transpose (vstack l (cross u l) u)) = I3 /\
  matmul (transpose (vstack l (cross u l) u)) (vstack l (cross u l) u) = I3.
Proof.
  destruct u as [a0 a1 a2], l as [b0 b1 b2].
  unfold sumsq, dot. cbn. intros Ha Hb Hab.
  set (S := a0 * a0 + a1 * a1 + a2 * a2) in Ha.
  set (T := b0 * b0 + b1 * b1 + b2 * b2) in Hb.
  set (D := a0 * b0 + a1 * b1 + a2 * b2) in Hab.
  set (m0 := a1 * b2 - a2 * b1). set (m1 := a2 * b0 - a0 * b2). set (m2 := a0 * b1 - a1 * b0).
  assert (E00 : m0 * m0 = S * T - D * D - T * a0 * a0 - S * b0 * b0 + 2 * D * a0 * b0)
    by (unfold m0, S, T, D; ring).
  assert (E11 : m1 * m1 = S * T - D * D - T * a1 * a1 - S * b1 * b1 + 2 * D * a1 * b1)
    by (unfold m1, S, T, D; ring).
  assert (E22 : m2 * m2 = S * T - D * D - T * a2 * a2 - S * b2 * b2 + 2 * D * a2 * b2)
    by (unfold m2, S, T, D; ring).
  assert (E01 : m0 * m1 = - T * a0 * a1 - S * b0 * b1 + D * (a0 * b1 + a1 * b0))
    by (unfold m0, m1, S, T, D; ring).
  assert (E02 : m0 * m2 = - T * a0 * a2 - S * b0 * b2 + D * (a0 * b2 + a2 * b0))
    by (unfold m0, m2, S, T, D; ring).
  assert (E12 : m1 * m2 = - T * a1 * a2 - S * b1 * b2 + D * (a1 * b2 + a2 * b1))
    by (unfold m1, m2, S, T, D; ring).
  assert (Lm : m0 * m0 + m1 * m1 + m2 * m2 = S * T - D * D) by (unfold m0, m1, m2, S, T, D; ring).
  assert (Pl : b0 * m0 + b1 * m1 + b2 * m2 = 0) by (unfold m0, m1, m2; ring).
  assert (Pu : a0 * m0 + a1 * m1 + a2 * m2 = 0) by (unfold m0, m1, m2; ring).
  rewrite Ha, Hb, Hab in *.
  unfold matmul, transpose, vstack, vecmat, dot, col0, col1, col2, I3, cross. cbn.
  fold m0 m1 m2.
  split; f_equal; f_equal; unfold S, T, D in *; lra.
Qed.

Lemma base_vectors_frame (n : V3) :
  n <> mkV3 0 0 0 ->
  exists u l, base_vectors n = (u, l, cross u l) /\
    sumsq u = 1 /\ sumsq l = 1 /\ dot u l = 0.
Proof.
  intros Hn. rewrite CoilFacts.base_vectors_eq.
  assert (Hs : sumsq n <> 0) by (intros H; apply Hn, CoilFacts.sumsq_zero, H).
  set (u := vdiv n (sqrt (sumsq n))).
  assert (Hu : sumsq u = 1) by apply CoilFacts.sumsq_normalize, Hs.
  set (l := vdiv (CoilFacts.perp u) (sqrt (sumsq (CoilFacts.perp u)))).
  assert (Hl : sumsq l = 1) by apply CoilFacts.sumsq_normalize, CoilFacts.perp_nonzero, Hu.
  exists u, l. split; [reflexivity|]. split; [exact Hu|]. split; [exact Hl|].
  unfold l. rewrite CoilFacts.dot_vdiv, CoilFacts.perp_dot. unfold Rdiv. ring.
Qed.

Lemma trans_of_orthogonal (n : V3) :
  n <> mkV3 0 0 0 ->
  matmul (trans_of n) (transpose (trans_of n)) = I3 /\
  matmul (transpose (trans_of n)) (trans_of n) = I3.
Proof.
  intros Hn. destruct (base_vectors_frame n Hn) as (u & l & Hb & Hu & Hl & Hul).
  unfold trans_of. rewrite Hb. apply frame_orthogonal; assumption.
Qed.

End CoilFrameFacts.

Module CoilFrameProps.
Import Coil CoilFrame.
Local Open Scope R_scope.
Local Open Scope list_scope.

(** [B_field] builds [trans = np.vstack((l, m, n))] from [base_vectors(n)].
    For every non-zero [n] this matrix is orthogonal: [trans @ trans.T] and
    [trans.T @ trans] are both the identity. *)
Theorem coil_frame_orthogonal (n : V3) :
  n <> mkV3 0 0 0 ->
  matmul (trans_of n) (transpose (trans_of n)) = I3 /\
  matmul (transpose (trans_of n)) (trans_of n) = I3.
Proof. apply CoilFrameFacts.trans_of_orthogonal. Qed.

Lemma coil_frame_orthogonal_witness :
  mkV3 0 0 2 <> mkV3 0 0 0 /\
  matmul (trans_of (mkV3 0 0 2)) (transpose (trans_of (mkV3 0 0 2))) = I3 /\
  matmul (transpose (trans_of (mkV3 0 0 2))) (trans_of (mkV3 0 0 2)) = I3.
Proof.
  assert (Hn : mkV3 0 0 2 <> mkV3 0 0 0) by (intros H; injection H as H; lra).
  split; [exact Hn | exact (coil_frame_orthogonal (mkV3 0 0 2) Hn)].
Defined.

(** For every non-zero [n], the only matrix [inv_trans] with
    [trans @ inv_trans = I] is [trans.T], so [linalg.inv(trans)] is the
    transpose. With it, [np.dot(r - r0, inv_trans)] gives the coordinates of
    [r - r0] along [l], [m] and [n], in that order. *)
Theorem coil_frame_inverse (n : V3) :
  n <> mkV3 0 0 0 ->
  (forall inv_trans, matmul (trans_of n) inv_trans = I3 -> inv_trans = transpose (trans_of n)) /\
  (forall r r0, to_coil_frame (transpose (trans_of n)) r r0 =
     let '(n', l, m) := base_vectors n in
     mkV3 (dot (vsub r r0) l) (dot (vsub r r0) m) (dot (vsub r r0) n')).
Proof.
  intros Hn.
  destruct (CoilFrameFacts.trans_of_orthogonal n Hn) as [_ H2].
  split.
  { intros X HX. rewrite <- (CoilFrameFacts.matmul_I3_l X), <- H2, CoilFrameFacts.matmul_assoc, HX.
    destruct (transpose (trans_of n)) as [[? ? ?] [? ? ?] [? ? ?]].
    unfold matmul, vecmat, dot, col0, col1, col2, I3. cbn. f_equal; f_equal; ring. }
  intros r r0.
  unfold to_coil_frame, trans_of. destruct (base_vectors n) as [[n' l] m].
  unfold vstack, transpose, vecmat, col0, col1, col2, dot. cbn.
  destruct l, m, n'. cbn. f_equal; ring.
Qed.

Lemma coil_frame_inverse_witness :
  mkV3 0 0 2 <> mkV3 0 0 0 /\
  ((forall inv_trans, matmul (trans_of (mkV3 0 0 2)) inv_trans = I3 ->
      inv_trans = transpose (trans_of (mkV3 0 0 2))) /\
   (forall r r0, to_coil_frame (transpose (trans_of (mkV3 0 0 2))) r r0 =
      let '(n', l, m) := base_vectors (mkV3 0 0 2) in
      mkV3 (dot (vsub r r0) l) (dot (vsub r r0) m) (dot (vsub r r0) n'))).
Proof.
  assert (Hn : mkV3 0 0 2 <> mkV3 0 0 0) by (intros H; injection H as H; lra).
  split; [exact Hn | exact (coil_frame_inverse (mkV3 0 0 2) Hn)].
Defined.

(** For every non-zero [n], rotating a point into the coil frame
    ([np.dot(r - r0, inv_trans)]) and then back with [np.dot(., trans)]
    returns [r - r0]. The rotation back to the lab frame keeps the squared
    length of every field vector. *)
Theorem coil_frame_round_trip (n : V3) :
  n <> mkV3 0 0 0 ->
  (forall r r0, to_lab_frame (trans_of n) (to_coil_frame (transpose (trans_of n)) r r0) = vsub r r0) /\
  (forall b, sumsq (to_lab_frame (trans_of n) b) = sumsq b).
Proof.
  intros Hn. destruct (CoilFrameFacts.trans_of_orthogonal n Hn) as [H1 H2]. split.
  - intros r r0. unfold to_lab_frame, to_coil_frame.
    rewrite CoilFrameFacts.vecmat_matmul, H2. apply CoilFrameFacts.vecmat_I3.
  - intros b. unfold to_lab_frame. rewrite !CoilFrameFacts.sumsq_dot, CoilFrameFacts.dot_vecmat,
      CoilFrameFacts.vecmat_matmul, H1, CoilFrameFacts.vecmat_I3. reflexivity.
Qed.

Lemma coil_frame_round_trip_witness :
  mkV3 0 0 2 <> mkV3 0 0 0 /\
  (forall r r0, to_lab_frame (trans_of (mkV3 0 0 2))
                  (to_coil_frame (transpose (trans_of (mkV3 0 0 2))) r r0) = vsub r r0) /\
  (forall b, sumsq (to_lab_frame (trans_of (mkV3 0 0 2)) b) = sumsq b).
Proof.
  assert (Hn : mkV3 0 0 2 <> mkV3 0 0 0) by (intros H; injection H as H; lra).
  split; [exact Hn | exact (coil_frame_round_trip (mkV3 0 0 2) Hn)].
Defined.

End CoilFrameProps.

Module CoilSymFacts.
Import Coil.
Local Open Scope R_scope.
Local Open Scope list_scope.

Lemma ndiv_neg (a : R) (b : R) : ndiv (Some (- a)) b = nneg (ndiv (Some a) b).
Proof. unfold ndiv, nneg. destruct (Req_EM_T b 0); [reflexivity|]. cbn. f_equal. unfold Rdiv. ring. Qed.

Lemma nmul_neg_l (a b : num) : nmul (nneg a) b = nneg (nmul a b).
Proof. destruct a, b; cbn; try reflexivity. f_equal. ring. Qed.

Lemma pow2_opp (z : R) : (- z) ^ 2 = z ^ 2.
Proof. ring. Qed.

End CoilSymFacts.

Module CoilSymProps.
Import Coil.
Local Open Scope R_scope.
Local Open Scope list_scope.

(** The in-plane field [Brho] that [B_field] computes in the coil frame is
    odd in [z] and the axial field [Bz] is even in [z]. Both depend on
    [x] and [y] only through [x^2 + y^2]. This holds for any [ellipe] and
    [ellipk], including the NaN cases and the points where [B_field] sets
    the field to 0. *)
Theorem B_field_symmetry (ellipe ellipk : R -> num) (R0 x y z : R) :
  Brho ellipe ellipk R0 x y (- z) = nneg (Brho ellipe ellipk R0 x y z) /\
  Bz ellipe ellipk R0 x y (- z) = Bz ellipe ellipk R0 x y z /\
  (forall x' y', x' ^ 2 + y' ^ 2 = x ^ 2 + y ^ 2 ->
     Brho ellipe ellipk R0 x' y' z = Brho ellipe ellipk R0 x y z /\
     Bz ellipe ellipk R0 x' y' z = Bz ellipe ellipk R0 x y z).
Proof.
  split; [|split].
  - unfold Brho, Brho_raw, ell_arg, dist. rewrite !CoilSymFacts.pow2_opp.
    destruct (Req_EM_T (rho x y) 0); [cbn; f_equal; ring|].
    destruct (Req_EM_T _ 0); [cbn; f_equal; ring|].
    rewrite CoilSymFacts.ndiv_neg, CoilSymFacts.nmul_neg_l. reflexivity.
  - unfold Bz, Bz_raw, ell_arg, dist. rewrite !CoilSymFacts.pow2_opp. reflexivity.
  - intros x' y' Hxy. assert (Hr : rho x' y' = rho x y) by (unfold rho; rewrite Hxy; reflexivity).
    unfold Brho, Brho_raw, Bz, Bz_raw, ell_arg, dist. rewrite !Hr. split; reflexivity.
Qed.

End CoilSymProps.

Module EsSweepFacts.
Import EsSweep EsSweepAux.
Local Open Scope Q_scope.
Local Open Scope list_scope.

Lemma mat_set_app (pre : list (list Q)) (r : list Q) (rs : list (list Q)) (j : nat) (v : Q) :
  (j < length r)%nat ->
  mat_set (pre ++ r :: rs) (length pre) j v =
  Some (pre ++ (firstn j r ++ v :: skipn (S j) r) :: rs).
Proof.
  intros Hj. induction pre as [|p pre IH]; cbn.
  - rewrite MadSweepFacts.list_set_in_range by exact Hj. reflexivity.
  - rewrite IH. reflexivity.
Qed.

Section Loops.
Variable risk_es : Q -> Q -> Q.

Lemma inner_loop_ok (j : nat) (a : Q) (vs : list Q) :
  forall idx st pre rows,
  Forall (fun v => 0 <= v) vs ->
  alpha st = Some a ->
  v_risk st = pre ++ rows ->
  length pre = idx ->
  length rows = length vs ->
  Forall (fun r => (j < length r)%nat) rows ->
  exists t, inner_loop risk_es j idx vs st =
    Ok (mkSt (Some a) t (pre ++ upd_col rows j (map (risk_es a) vs))
             (solver_log st ++ map (pair a) vs)).
Proof.
  induction vs as [|v vs IH]; intros idx st pre rows Hnn Ha Hv Hidx Hlen Hj.
  - destruct rows; [|discriminate Hlen].
    exists (target st). cbn. unfold upd_col. cbn. rewrite app_nil_r in Hv. rewrite !app_nil_r, <- Hv, <- Ha. destruct st; reflexivity.
  - destruct rows as [|r rows]; [discriminate Hlen|].
    inversion Hnn as [|? ? Hv0 Hvs]; subst. inversion Hj as [|? ? Hr Hrs]; subst.
    cbn [inner_loop]. unfold set_target. apply Qle_bool_iff in Hv0. rewrite Hv0.
    unfold solve. cbn [alpha target v_risk solver_log]. rewrite Ha, Hv.
    cbn [v_risk alpha target solver_log]. rewrite mat_set_app by exact Hr.
    destruct (IH (S (length pre))
               (mkSt (Some a) (Some v) (pre ++ (firstn j r ++ risk_es a v :: skipn (S j) r) :: rows)
                     (solver_log st ++ [(a, v)]))
               (pre ++ [firstn j r ++ risk_es a v :: skipn (S j) r]) rows)
      as [t Ht]; try assumption.
    + reflexivity.
    + cbn [v_risk]. rewrite <- app_assoc. reflexivity.
    + rewrite length_app. cbn. lia.
    + cbn in Hlen. lia.
    + exists t. rewrite Ht. cbn [solver_log]. rewrite <- !app_assoc. reflexivity.
Qed.

Local Notation row_after := (EsSweepAux.row_after risk_es).

Lemma V_Alpha_step (k : nat) :
  (k < 4)%nat ->
  exists a, nth_error V_Alpha k = Some a /\ Qle_bool 0 a = true /\
    firstn (S k) V_Alpha = firstn k V_Alpha ++ [a] /\
    skipn k V_Alpha = a :: skipn (S k) V_Alpha /\
    (forall t, firstn k (row_after k t) ++ risk_es a t :: skipn (S k) (row_after k t) = row_after (S k) t) /\
    (forall t, (k < length (row_after k t))%nat).
Proof.
  intros Hk. destruct k as [|[|[|[|k]]]]; [| | | |lia];
    eexists; (split; [reflexivity|]); (split; [reflexivity|]); (split; [reflexivity|]);
    (split; [reflexivity|]); split; intros t; cbn; try reflexivity; lia.
Qed.

Lemma upd_col_rows (k : nat) (a : Q) (vt : list Q) :
  (forall t, firstn k (row_after k t) ++ risk_es a t :: skipn (S k) (row_after k t) = row_after (S k) t) ->
  upd_col (map (row_after k) vt) k (map (risk_es a) vt) = map (row_after (S k)) vt.
Proof.
  intros Hs. induction vt as [|t vt IH]; [reflexivity|].
  unfold upd_col in *. cbn [map combine]. cbv beta iota. rewrite Hs. f_equal. exact IH.
Qed.

Lemma outer_loop_ok (vt : list Q) (alphas : list Q) :
  forall k st,
  Forall (fun v => 0 <= v) vt ->
  alphas = skipn k V_Alpha ->
  v_risk st = map (row_after k) vt ->
  solver_log st = flat_map (fun a => map (pair a) vt) (firstn k V_Alpha) ->
  exists al tg, outer_loop risk_es k alphas vt st =
    Ok (mkSt al tg (map (row_after 4) vt) (flat_map (fun a => map (pair a) vt) V_Alpha)).
Proof.
  induction alphas as [|a0 alphas IH]; intros k st Hnn Hal Hv Hl.
  - exists (alpha st), (target st). cbn [outer_loop].
    assert (Hk : (4 <= k)%nat).
    { destruct (Nat.le_gt_cases 4 k) as [H|H]; [exact H|].
      destruct (V_Alpha_step k H) as (a & _ & _ & _ & Hs & _). rewrite Hs in Hal. discriminate. }
    assert (Hf : firstn k V_Alpha = V_Alpha) by (apply firstn_all2; cbn; lia).
    assert (Hr : forall t, row_after k t = row_after 4 t).
    { intros t. unfold row_after. rewrite Hf. replace (4 - k)%nat with 0%nat by lia. reflexivity. }
    rewrite Hf in Hl. rewrite <- Hl. rewrite (map_ext _ _ Hr) in Hv. rewrite <- Hv.
    destruct st; reflexivity.
  - assert (Hk : (k < 4)%nat).
    { destruct (Nat.le_gt_cases 4 k) as [H|H]; [|exact H].
      rewrite skipn_all2 in Hal by (cbn; lia). discriminate. }
    destruct (V_Alpha_step k Hk) as (a & Hnth & Hpos & Hfs & Hsk & Hrow & Hlenr).
    rewrite Hsk in Hal. injection Hal as -> Hal.
    cbn [outer_loop]. unfold set_alpha at 1. rewrite Hpos. rewrite Hnth.
    unfold set_alpha. cbn [alpha target v_risk solver_log]. rewrite Hpos.
    destruct (inner_loop_ok k a vt 0
               (mkSt (Some a) (target st) (v_risk st) (solver_log st)) [] (map (row_after k) vt))
      as [t Ht]; try assumption; try reflexivity.
    + rewrite length_map. reflexivity.
    + apply Forall_map, Forall_forall. intros x _. apply Hlenr.
    + rewrite Ht. cbn [app].
      rewrite upd_col_rows by exact Hrow.
      apply (IH (S k)); try assumption.
      * reflexivity.
      * cbn [solver_log]. rewrite Hl, Hfs, flat_map_app. cbn. rewrite app_nil_r. reflexivity.
Qed.

End Loops.
End EsSweepFacts.

Module EsSweepProps.
Import EsSweep.
Local Open Scope Q_scope.
Local Open Scope list_scope.


End EsSweepProps.

Module PortfolioFacts.
Import Portfolio.
Local Open Scope R_scope.
Local Open Scope list_scope.

Lemma vsum_vdivs (v : list R) (d : R) : vsum (vdivs v d) = vsum v / d.
Proof.
  induction v as [|x v IH]; cbn; [unfold Rdiv; ring|].
  change (fold_right Rplus 0 (map (fun x => x / d) v)) with (vsum (vdivs v d)).
  rewrite IH. unfold vsum, Rdiv. ring.
Qed.

Lemma dotl_ones (w : list R) : dotl (repeat 1 (length w)) w = vsum w.
Proof.
  induction w as [|x w IH]; [reflexivity|].
  unfold dotl, vsum in *. cbn. rewrite IH. ring.
Qed.

Lemma dotl_cons (a : R) (u : list R) (b : R) (v : list R) :
  dotl (a :: u) (b :: v) = a * b + dotl u v.
Proof. reflexivity. Qed.

Lemma dotl_nil_l (v : list R) : dotl [] v = 0.
Proof. reflexivity. Qed.

Lemma dotl_vadd (x y b : list R) :
  length x = length b -> length y = length b ->
  dotl (vadd x y) b = dotl x b + dotl y b.
Proof.
  revert y b. induction x as [|x0 x IH]; intros y b Hx Hy.
  - destruct b; [|discriminate]. destruct y; [|discriminate]. unfold dotl, vadd, vsum; cbn; ring.
  - destruct b as [|b0 b]; [discriminate|]. destruct y as [|y0 y]; [discriminate|].
    unfold vadd. cbn [combine map]. rewrite !dotl_cons.
    fold (vadd x y). rewrite IH by (cbn in *; lia). ring.
Qed.

Lemma length_vadd (x y : list R) : length (vadd x y) = Nat.min (length x) (length y).
Proof. unfold vadd. rewrite length_map, length_combine. reflexivity. Qed.

Lemma dotl_scale (c : R) (r b : list R) : dotl (map (Rmult c) r) b = c * dotl r b.
Proof.
  revert b. induction r as [|x r IH]; intros b; [cbn; unfold dotl; cbn; ring|].
  destruct b as [|y b]; [unfold dotl; cbn; ring|].
  cbn [map]. rewrite !dotl_cons, IH. ring.
Qed.

Lemma dotl_repeat0 (m : nat) (b : list R) : dotl (repeat 0 m) b = 0.
Proof.
  revert b. induction m as [|m IH]; intros b; [reflexivity|].
  destruct b as [|y b]; [reflexivity|]. cbn [repeat]. rewrite dotl_cons, IH. ring.
Qed.

Lemma vecmat_fold (u : list R) (A : list (list R)) (z b : list R) :
  length u = length A ->
  Forall (fun row => length row = length b) A ->
  length z = length b ->
  length (fold_right (fun '(vi, row) acc => vadd (map (Rmult vi) row) acc) z (combine u A)) = length b /\
  dotl (fold_right (fun '(vi, row) acc => vadd (map (Rmult vi) row) acc) z (combine u A)) b
  = dotl z b + dotl u (matvec A b).
Proof.
  revert A. induction u as [|u0 u IH]; intros A Hl HA Hz.
  - cbn. split; [exact Hz|]. unfold dotl, vsum; cbn; ring.
  - destruct A as [|r A]; [discriminate|]. inversion HA as [|? ? Hr HA']; subst.
    cbn [combine fold_right]. destruct (IH A ltac:(cbn in Hl; lia) HA' Hz) as [Hlen Hdot].
    split.
    + rewrite length_vadd, length_map, Hr, Hlen. lia.
    + rewrite dotl_vadd by (rewrite ?length_map; assumption).
      rewrite Hdot, dotl_scale. unfold matvec. cbn [map]. rewrite dotl_cons. ring.
Qed.

Lemma dotl_vecmat (u : list R) (A : list (list R)) (b : list R) :
  length u = length A ->
  Forall (fun row => length row = length b) A ->
  dotl (vecmat u A) b = dotl u (matvec A b).
Proof.
  intros Hl HA. unfold vecmat. destruct A as [|r A'].
  - destruct u; [unfold dotl, vsum; cbn; ring|discriminate].
  - inversion HA as [|? ? Hr _]; subst. cbn [hd].
    destruct (vecmat_fold u (r :: A') (repeat 0 (length r)) b Hl HA) as [_ H];
      [rewrite repeat_length; exact Hr|].
    rewrite H, dotl_repeat0. ring.
Qed.

Lemma vsum_matvec_den (Mu b : list R) (A : list (list R)) :
  square A (length Mu) -> length b = length Mu ->
  dotl (vecmat (iota Mu) A) b = vsum (matvec A b).
Proof.
  intros [HlA HA] Hb. rewrite dotl_vecmat.
  - unfold iota. rewrite <- HlA.
    replace (length A) with (length (matvec A b)) by (unfold matvec; apply length_map).
    apply dotl_ones.
  - unfold iota. rewrite repeat_length. symmetry. exact HlA.
  - eapply Forall_impl; [|exact HA]. intros row Hrow. cbn in Hrow. rewrite Hrow. symmetry. exact Hb.
Qed.

Lemma vsum_repeat (x : R) (n : nat) : vsum (repeat x n) = INR n * x.
Proof.
  induction n as [|n IH]; [cbn; ring|].
  cbn [repeat]. unfold vsum in *. cbn [fold_right]. rewrite IH, S_INR. ring.
Qed.

(** One entry of the risk-parity equations. *)
Lemma F_entry_zero (s wi lam : R) :
  Coil.nadd (Some s) (Coil.nneg (Coil.ndiv (Some lam) wi)) = Some 0 <-> wi <> 0 /\ wi * s = lam.
Proof.
  unfold Coil.ndiv. destruct (Req_EM_T wi 0) as [H0|H0]; cbn.
  - split; [discriminate | intros [H _]; contradiction].
  - split.
    + intros H. injection H as H. split; [exact H0|].
      apply (Rmult_eq_compat_l wi) in H. field_simplify in H; [|exact H0]. lra.
    + intros [_ H]. f_equal. rewrite <- H. field. exact H0.
Qed.

Lemma F_entries_zero (lam : R) (w s : list R) :
  length s = length w ->
  Forall (fun c => c = Some 0)
    (map (fun '(s, wi) => Coil.nadd (Some s) (Coil.nneg (Coil.ndiv (Some lam) wi))) (combine s w))
  <-> Forall (fun x => x <> 0) w /\
      map (fun '(wi, si) => wi * si) (combine w s) = repeat lam (length w).
Proof.
  revert s. induction w as [|w0 w IH]; intros s Hl.
  - destruct s; [|discriminate]. cbn. split; [intros _; split; constructor | intros _; constructor].
  - destruct s as [|s0 s]; [discriminate|]. cbn [combine map length repeat].
    rewrite (Forall_cons_iff (fun c => c = Some 0)), F_entry_zero, IH by (cbn in Hl; lia).
    rewrite Forall_cons_iff.
    split.
    + intros [[Hw Hws] [Hf Hm]]. split; [split; assumption|]. rewrite Hws, Hm. reflexivity.
    + intros [[Hw Hf] Hm]. injection Hm as Hm1 Hm2. tauto.
Qed.

End PortfolioFacts.

Module SolveCwFacts.
Import SolveCw.
Local Open Scope R_scope.
Local Open Scope list_scope.

Lemma all_neg_diff (l : list R) :
  all_neg (diff l) = true <->
  (forall i, (S i < length l)%nat -> nth (S i) l 0 < nth i l 0).
Proof.
  induction l as [|x l IH].
  - cbn. split; [intros _ i Hi; lia | reflexivity].
  - destruct l as [|y l].
    + cbn. split; [intros _ i Hi; lia | reflexivity].
    + change (diff (x :: y :: l)) with ((y - x) :: diff (y :: l)).
      unfold all_neg in *. cbn [forallb]. rewrite andb_true_iff, IH.
      split.
      * intros [Hxy Hrest] i Hi. destruct i as [|i].
        -- cbn. destruct (Rlt_dec (y - x) 0); [lra | discriminate].
        -- cbn [nth]. apply Hrest. cbn in *. lia.
      * intros H. split.
        -- destruct (Rlt_dec (y - x) 0) as [|Hn]; [reflexivity|].
           exfalso. apply Hn. specialize (H 0%nat ltac:(cbn; lia)). cbn in H. lra.
        -- intros i Hi. apply (H (S i)). cbn in *. lia.
Qed.

Lemma consecutive_pairwise (l : list R) :
  (forall i, (S i < length l)%nat -> nth (S i) l 0 < nth i l 0) <->
  (forall i j, (i < j < length l)%nat -> nth j l 0 < nth i l 0).
Proof.
  split.
  - intros H i j Hij. destruct Hij as [Hij Hj].
    induction j as [|j IHj]; [lia|].
    destruct (Nat.eq_dec i j) as [->|Hne]; [apply H; exact Hj|].
    apply (Rlt_trans _ (nth j l 0)); [apply H; exact Hj | apply IHj; lia].
  - intros H i Hi. apply H. lia.
Qed.

End SolveCwFacts.

Module PortfolioProps.
Import Portfolio.
Local Open Scope R_scope.
Local Open Scope list_scope.

(** For [n >= 1] assets, a square [inv_Sigma] and a [Stdev] of length [n],
    the equal weights [Weight_1N] sum to 1. The minimum-variance weights
    [Weight_MV] and the maximum-diversification weights [Weight_MD] also sum
    to 1 whenever their normalising denominator is not zero. *)
Theorem closed_form_weights_sum_to_one (Mu Stdev : list R) (inv_Sigma : list (list R)) :
  length Mu <> 0%nat ->
  length Stdev = length Mu ->
  square inv_Sigma (length Mu) ->
  vsum (Weight_1N Mu) = 1 /\
  (dotl (vecmat (iota Mu) inv_Sigma) (iota Mu) <> 0 -> vsum (Weight_MV Mu inv_Sigma) = 1) /\
  (dotl (vecmat (iota Mu) inv_Sigma) Stdev <> 0 -> vsum (Weight_MD Mu Stdev inv_Sigma) = 1).
Proof.
  intros Hn HS Hsq. split; [|split].
  - unfold Weight_1N. rewrite PortfolioFacts.vsum_repeat. field. apply not_0_INR. exact Hn.
  - intros Hd. unfold Weight_MV. rewrite PortfolioFacts.vsum_vdivs.
    rewrite (PortfolioFacts.vsum_matvec_den Mu (iota Mu) inv_Sigma Hsq) in *
      by (unfold iota; apply repeat_length).
    field. exact Hd.
  - intros Hd. unfold Weight_MD. rewrite PortfolioFacts.vsum_vdivs.
    rewrite (PortfolioFacts.vsum_matvec_den Mu Stdev inv_Sigma Hsq HS) in *.
    field. exact Hd.
Qed.

Lemma closed_form_weights_sum_to_one_witness :
  length [1] <> 0%nat /\ length [1] = length [1] /\ square [[1]] (length [1]) /\
  (vsum (Weight_1N [1]) = 1 /\
   (dotl (vecmat (iota [1]) [[1]]) (iota [1]) <> 0 -> vsum (Weight_MV [1] [[1]]) = 1) /\
   (dotl (vecmat (iota [1]) [[1]]) [1] <> 0 -> vsum (Weight_MD [1] [1] [[1]]) = 1)).
Proof.
  assert (H1 : length [1] <> 0%nat) by discriminate.
  assert (H2 : length [1] = length [1]) by reflexivity.
  assert (H3 : square [[1]] (length [1])) by (split; [reflexivity | repeat constructor]).
  split; [exact H1|]. split; [exact H2|]. split; [exact H3|].
  exact (closed_form_weights_sum_to_one [1] [1] [[1]] H1 H2 H3).
Defined.

(** The residual [F(v, Sigma)] given to [opt.root] vanishes exactly at a
    risk-parity point. With [w = v[:-1]] and [lam = v[-1]], this means: [w]
    sums to 1, no weight is zero, and every risk contribution
    [w_i (Sigma w)_i] equals [lam]. A zero weight makes [v[-1]/v[:-1]] give
    inf or NaN, so [F] is never zero there. *)
Theorem risk_parity_root (v : list R) (Sigma : list (list R)) :
  square Sigma (length (init v)) ->
  (Forall (fun c => c = Some 0) (F v Sigma) <->
   vsum (init v) = 1 /\ Forall (fun x => x <> 0) (init v) /\
   map (fun '(wi, si) => wi * si) (combine (init v) (matvec Sigma (init v)))
   = repeat (lastv v) (length (init v))).
Proof.
  intros [Hl _]. unfold F. rewrite Forall_app, Forall_cons_iff.
  rewrite PortfolioFacts.F_entries_zero
    by (unfold matvec; rewrite length_map; exact Hl).
  split.
  - intros [[Hnz Hm] [Hs _]]. injection Hs as Hs. repeat split; [lra | exact Hnz | exact Hm].
  - intros [Hs [Hnz Hm]]. split; [split; assumption|]. split; [f_equal; lra | constructor].
Qed.

Lemma risk_parity_root_witness :
  square [[2]] (length (init [1; 2])) /\
  (Forall (fun c => c = Some 0) (F [1; 2] [[2]]) <->
   vsum (init [1; 2]) = 1 /\ Forall (fun x => x <> 0) (init [1; 2]) /\
   map (fun '(wi, si) => wi * si) (combine (init [1; 2]) (matvec [[2]] (init [1; 2])))
   = repeat (lastv [1; 2]) (length (init [1; 2]))).
Proof.
  assert (H : square [[2]] (length (init [1; 2]))) by (split; [reflexivity | repeat constructor]).
  split; [exact H | exact (risk_parity_root [1; 2] [[2]] H)].
Defined.

End PortfolioProps.

Module GratingProps.
Import Grating GratingLayout.
Local Open Scope R_scope.
Local Open Scope list_scope.

(** On the liquid-crystal layer, [0 <= xx <= 2d], the twist angle [phi] of
    [pol_grating] is a tent in [xx]. It rises linearly from 0 to [ph] at
    [xx = d] and falls back to 0 at [xx = 2d], on top of the [pi y / gp]
    term. *)
Theorem phi_tent_profile (d ph gp : R) :
  0 < d ->
  forall p, 0 <= xx_of d p <= 2 * d ->
  phi d ph gp p = PI * vy p / gp + ph * (d - Rabs (xx_of d p - d)) / d.
Proof.
  intros Hd p [H0 H2]. unfold phi. cbv zeta.
  unfold phi_first, phi_second.
  destruct (Rle_dec 0 (xx_of d p)) as [_|Hn]; [|lra].
  destruct (Rle_dec (xx_of d p) d) as [Hle|Hgt].
  - rewrite Rabs_left1 by lra. unfold Rdiv. ring.
  - rewrite Rabs_right by lra.
    assert (E : ph * d / d = ph) by (field; lra).
    unfold Rdiv in *.
    replace (ph * (d - (xx_of d p - d)) * / d) with (2 * (ph * d * / d) - ph * xx_of d p * / d) by ring.
    rewrite E. ring.
Qed.

Lemma phi_tent_profile_witness :
  0 < 1 /\ (0 <= xx_of 1 {| vx := 0; vy := 0; vz := 0 |} <= 2 * 1 /\
  phi 1 1 1 {| vx := 0; vy := 0; vz := 0 |} =
  PI * vy {| vx := 0; vy := 0; vz := 0 |} / 1 + 1 * (1 - Rabs (xx_of 1 {| vx := 0; vy := 0; vz := 0 |} - 1)) / 1).
Proof.
  assert (Hp : 0 <= xx_of 1 {| vx := 0; vy := 0; vz := 0 |} <= 2 * 1)
    by (unfold xx_of, sx, dpml, dsub, dpad; cbn; lra).
  split; [lra|]. split; [exact Hp|].
  exact (phi_tent_profile 1 1 1 Rlt_0_1 {| vx := 0; vy := 0; vz := 0 |} Hp).
Defined.

(** The geometry of [pol_grating], for every [d]. The substrate block starts
    at the left cell edge and ends where the liquid-crystal block starts.
    That point is the origin of [phi]'s [xx]. The liquid-crystal block is
    [2d] thick and is followed by [dpad] of padding and [dpml] of PML. The
    source lies between the left PML and the substrate's end. The
    transmission plane lies between the grating and the right PML. *)
Theorem pol_grating_layout (d : R) :
  lo (sub_center d) sub_size = -0.5 * sx d /\
  hi (sub_center d) sub_size = lo (lc_center d) (lc_size d) /\
  (forall p, xx_of d p = vx p - lo (lc_center d) (lc_size d)) /\
  hi (lc_center d) (lc_size d) - lo (lc_center d) (lc_size d) = 2 * d /\
  hi (lc_center d) (lc_size d) + dpad + dpml = 0.5 * sx d /\
  -0.5 * sx d + dpml < src_x d < hi (sub_center d) sub_size /\
  hi (lc_center d) (lc_size d) < tran_x d < 0.5 * sx d - dpml.
Proof.
  unfold lo, hi, sub_center, sub_size, lc_center, lc_size, src_x, tran_x, xx_of, sx, dpml, dsub, dpad.
  repeat split; intros; lra.
Qed.


End GratingProps.

Module SolveCwProps.
Import SolveCw.
Local Open Scope R_scope.
Local Open Scope list_scope.

(** The solve-cw check prints the PASSED message exactly when [err_dat] is
    strictly decreasing, i.e. every later entry is smaller than every
    earlier one. Otherwise it prints the FAILED message. *)
Theorem solve_cw_verdict (err_dat : list R) :
  verdict err_dat = passed_msg <->
  (forall i j, (i < j < length err_dat)%nat -> nth j err_dat 0 < nth i err_dat 0).
Proof.
  rewrite <- SolveCwFacts.consecutive_pairwise, <- SolveCwFacts.all_neg_diff.
  unfold verdict. destruct (all_neg (diff err_dat)).
  - split; reflexivity.
  - split; [unfold failed_msg, passed_msg; discriminate | discriminate].
Qed.

End SolveCwProps.

Module CylCrossProps.
Import CylCross.
Local Open Scope R_scope.
Local Open Scope list_scope.

(** For every radius [r > 0], the Gaussian source band
    [frq_cen -/+ dfrq/2] is exactly [frq_min, frq_max]. In the plotted units
    [2 pi r f], these ends are 2 and 10. *)
Theorem cylinder_band (r : R) :
  0 < r ->
  frq_cen r - dfrq r / 2 = frq_min r /\ frq_cen r + dfrq r / 2 = frq_max r /\
  2 * PI * r * frq_min r = 2 /\ 2 * PI * r * frq_max r = 10.
Proof.
  intros Hr. pose proof PI_RGT_0 as Hpi.
  unfold frq_cen, dfrq, frq_min, frq_max, wvl_min, wvl_max.
  replace 0.5 with (/ 2) by lra.
  repeat split; field; lra.
Qed.

Lemma cylinder_band_witness :
  0 < 1 /\ (frq_cen 1 - dfrq 1 / 2 = frq_min 1 /\ frq_cen 1 + dfrq 1 / 2 = frq_max 1 /\
  2 * PI * 1 * frq_min 1 = 2 /\ 2 * PI * 1 * frq_max 1 = 10).
Proof. split; [exact Rlt_0_1 | exact (cylinder_band 1 Rlt_0_1)]. Defined.

(** For [r > 0] and [h > 0], the three flux planes [box_z1], [box_z2] and
    [box_r] lie on the faces of the cylinder block, which starts at the axis.
    The cylinder is separated from the PML by [dair > 0] both radially and
    in z. The source plane lies [dair] below the cylinder, inside the cell. *)
Theorem cylinder_cell_layout (r h : R) :
  0 < r -> 0 < h ->
  cyl_rlo r = 0 /\
  box_z_rlo r = cyl_rlo r /\ box_z_rhi r = cyl_rhi r /\ box_r_r r = cyl_rhi r /\
  box_z1_z h = cyl_zlo h /\ box_z2_z h = cyl_zhi h /\
  box_r_zlo h = cyl_zlo h /\ box_r_zhi h = cyl_zhi h /\
  0 < dair r /\
  cyl_rhi r + dair r = sr r - dpml r /\
  cyl_zhi h + dair r = 0.5 * sz r h - dpml r /\
  src_z r h = cyl_zlo h - dair r /\
  - 0.5 * sz r h < src_z r h.
Proof.
  intros Hr Hh. pose proof PI_RGT_0 as Hpi.
  assert (Hw : 0 < wvl_max r) by (unfold wvl_max; apply Rdiv_lt_0_compat; [nra | lra]).
  unfold src_z, sr, sz, cyl_rlo, cyl_rhi, cyl_zlo, cyl_zhi, box_z_rlo, box_z_rhi, box_r_r,
    box_z1_z, box_z2_z, box_r_zlo, box_r_zhi, dair, dpml.
  repeat split; lra.
Qed.

Lemma cylinder_cell_layout_witness :
  0 < 1 /\ 0 < 1 /\
  (cyl_rlo 1 = 0 /\
   box_z_rlo 1 = cyl_rlo 1 /\ box_z_rhi 1 = cyl_rhi 1 /\ box_r_r 1 = cyl_rhi 1 /\
   box_z1_z 1 = cyl_zlo 1 /\ box_z2_z 1 = cyl_zhi 1 /\
   box_r_zlo 1 = cyl_zlo 1 /\ box_r_zhi 1 = cyl_zhi 1 /\
   0 < dair 1 /\
   cyl_rhi 1 + dair 1 = sr 1 - dpml 1 /\
   cyl_zhi 1 + dair 1 = 0.5 * sz 1 1 - dpml 1 /\
   src_z 1 1 = cyl_zlo 1 - dair 1 /\
   - 0.5 * sz 1 1 < src_z 1 1).
Proof.
  split; [exact Rlt_0_1|]. split; [exact Rlt_0_1|].
  exact (cylinder_cell_layout 1 1 Rlt_0_1 Rlt_0_1).
Defined.

End CylCrossProps.

